(** * Invoice-Scanner: session store, extraction workflow and CSV exporter

    A shallow embedding of [src/types.ts], [src/App.tsx] and the extraction
    client ([analyzeInvoiceImage]), followed by the properties of the
    specification that were checked against it.

    Conventions.
    - A JavaScript string is the list of its UTF-16 code units ([jsstring]).
    - A JavaScript [number] is kept abstract: the code only ever compares a
      number with [0] and converts it to a string, so a number type comes with
      those two observations (class [JSNumber]).
    - An [async] function is a resumption ([Async]): it runs synchronously up
      to its next [await] of the environment (the [FileReader], the inference
      endpoint) and continues with whatever the environment answers. *)

From Stdlib Require Import List NArith ZArith Bool Lia.
From Stdlib Require String Ascii DecimalString.
Import ListNotations.
Import String.StringSyntax.
Delimit Scope string_scope with string.

(* ================================================================== *)
(** ** JavaScript strings *)
(* ================================================================== *)

Definition jsstring := list N.

(** A literal of the source, as code units (ASCII literals only). *)
Definition str (s : String.string) : jsstring :=
  map Ascii.N_of_ascii (String.list_ascii_of_string s).
Arguments str s%_string.

(** [a === b] on strings. *)
Fixpoint str_eqb (a b : jsstring) : bool :=
  match a, b with
  | [], [] => true
  | x :: a', y :: b' => N.eqb x y && str_eqb a' b'
  | _, _ => false
  end.

(** Truthiness of a string: only the empty string is falsy. *)
Definition truthy (s : jsstring) : bool :=
  match s with [] => false | _ :: _ => true end.

(** [s || ''] for a value typed [string]. *)
Definition orEmpty (s : jsstring) : jsstring :=
  if truthy s then s else [].

Definition QUOTE : N := 34.       (* the double-quote character *)
Definition APOSTROPHE : N := 39.  (* the single-quote character *)
Definition COMMA : N := 44.
Definition NEWLINE : N := 10.
Definition BOM : N := 65279.      (* U+FEFF *)

(** The description sanitiser of the exporter: [replace] with the global
    pattern matching one double quote and an apostrophe as replacement. *)
Definition replaceQuotesByApostrophes (s : jsstring) : jsstring :=
  map (fun c => if N.eqb c QUOTE then APOSTROPHE else c) s.

(** The file-name escaping of the exporter: [replace] with the same global
    pattern and two double quotes as replacement. *)
Definition doubleQuotes (s : jsstring) : jsstring :=
  flat_map (fun c => if N.eqb c QUOTE then [QUOTE; QUOTE] else [c]) s.

(** ECMAScript LineTerminator code points. *)
Definition isLineTerminator (c : N) : bool :=
  N.eqb c 10 || N.eqb c 13 || N.eqb c 8232 || N.eqb c 8233.

(** ECMAScript WhiteSpace code points (TAB, VT, FF, SP, NBSP, ZWNBSP and the
    Unicode space separators); all of them are single code units. *)
Definition isWhiteSpace (c : N) : bool :=
  N.eqb c 9 || N.eqb c 11 || N.eqb c 12 || N.eqb c 32 || N.eqb c 160 ||
  N.eqb c 5760 || (N.leb 8192 c && N.leb c 8202) || N.eqb c 8239 ||
  N.eqb c 8287 || N.eqb c 12288 || N.eqb c 65279.

Definition isTrimmed (c : N) : bool := isWhiteSpace c || isLineTerminator c.

Fixpoint dropWhile (p : N -> bool) (s : jsstring) : jsstring :=
  match s with
  | [] => []
  | c :: s' => if p c then dropWhile p s' else s
  end.

(** [String.prototype.trim] *)
Definition trim (s : jsstring) : jsstring :=
  rev (dropWhile isTrimmed (rev (dropWhile isTrimmed s))).

(** [Array.prototype.join] on an array of strings. *)
Fixpoint join (sep : jsstring) (l : list jsstring) : jsstring :=
  match l with
  | [] => []
  | x :: r =>
      match r with
      | [] => x
      | _ :: _ => x ++ sep ++ join sep r
      end
  end.

(** [s.startsWith(p)], returning what follows the prefix. *)
Fixpoint stripPrefix (p s : jsstring) : option jsstring :=
  match p, s with
  | [], _ => Some s
  | _ :: _, [] => None
  | x :: p', y :: s' => if N.eqb x y then stripPrefix p' s' else None
  end.

(* ================================================================== *)
(** ** JavaScript numbers *)
(* ================================================================== *)

(** What the program observes of a [number]: [n !== 0] (through [isZero]) and
    its conversion to a string inside a template literal or [join]. *)
Class JSNumber (num : Type) : Type := {
  isZero : num -> bool;
  numToString : num -> jsstring
}.

(** Integers, printed in decimal; enough for the examples of the
    specification. *)
Definition Z_toString (z : Z) : jsstring :=
  str (DecimalString.NilZero.string_of_int (Z.to_int z)).

#[export] Instance JSNumber_Z : JSNumber Z := {
  isZero := Z.eqb 0;
  numToString := Z_toString
}.

(* ================================================================== *)
(** ** src/types.ts *)
(* ================================================================== *)

Section Types.
Context {num : Type}.

Record LineItem : Type := {
  description : jsstring;
  quantity : num;
  unitPrice : num;
  total : num
}.

Record InvoiceData : Type := {
  invoiceDate : jsstring;
  invoiceNumber : jsstring;
  poNumber : jsstring;
  quotationNumber : jsstring;
  totalAmount : num;
  currency : jsstring;
  items : list LineItem
}.

Inductive AppStatus : Type := IDLE | ANALYZING | SUCCESS | ERROR.

(** The part of a DOM [File] the program reads. *)
Record File : Type := {
  name : jsstring;
  type : jsstring
}.

Record InvoiceSessionItem : Type := {
  id : jsstring;
  file : File;
  previewUrl : jsstring;
  status : AppStatus;
  result : option InvoiceData;
  error : option jsstring
}.
End Types.

Arguments LineItem num : clear implicits.
Arguments InvoiceData num : clear implicits.
Arguments InvoiceSessionItem num : clear implicits.

Definition AppStatus_eqb (a b : AppStatus) : bool :=
  match a, b with
  | IDLE, IDLE | ANALYZING, ANALYZING | SUCCESS, SUCCESS | ERROR, ERROR => true
  | _, _ => false
  end.

(* ================================================================== *)
(** ** The extraction client (services/geminiService) *)
(* ================================================================== *)

(** The response schema sent with every request. *)
#[local] Unset Elimination Schemes.
Inductive Schema : Type :=
| SchemaString (about : option jsstring)
| SchemaNumber (about : option jsstring)
| SchemaArray (about : option jsstring) (element : Schema)
| SchemaObject (properties : list (jsstring * Schema)) (required : list jsstring).
#[local] Set Elimination Schemes.

Definition INVOICE_SCHEMA : Schema :=
  SchemaObject
    [ (str "invoiceDate",
       SchemaString (Some (str "The date of the invoice (e.g., YYYY-MM-DD).")));
      (str "invoiceNumber",
       SchemaString (Some (str "The unique identifier number of the invoice.")));
      (str "poNumber",
       SchemaString (Some (str "The Purchase Order (PO) number if available.")));
      (str "quotationNumber",
       SchemaString (Some (str "The Quotation number if available.")));
      (str "totalAmount",
       SchemaNumber (Some (str "The total amount of the invoice after tax/discounts.")));
      (str "currency",
       SchemaString (Some (str "The currency code (e.g., USD, TWD, EUR).")));
      (str "items",
       SchemaArray (Some (str "List of line items in the invoice."))
         (SchemaObject
            [ (str "description", SchemaString None);
              (str "quantity", SchemaNumber None);
              (str "unitPrice", SchemaNumber None);
              (str "total", SchemaNumber None) ]
            [ str "description"; str "quantity"; str "unitPrice"; str "total" ])) ]
    [ str "invoiceDate"; str "invoiceNumber"; str "totalAmount"; str "items" ].

Record InlineData : Type := {
  mimeType : jsstring;
  data : jsstring
}.

(** The argument of [ai.models.generateContent]. *)
Record Request : Type := {
  model : jsstring;
  inlineData : InlineData;
  text : jsstring;
  responseMimeType : jsstring;
  responseSchema : Schema;
  systemInstruction : jsstring
}.

(** What the endpoint does with a request: the promise rejects, or resolves
    with a response whose [text] is a string or [undefined]. *)
Inductive Reply : Type :=
| Rejected
| Resolved (responseText : option jsstring).

(** The lazy group followed by the literal [;base64,] of the header pattern:
    the shortest run of characters other than line terminators after which
    [;base64,] follows.  Returns the group and what follows the match. *)
Fixpoint lazyUntilBase64 (s : jsstring) : option (jsstring * jsstring) :=
  match stripPrefix (str ";base64,") s with
  | Some rest => Some ([], rest)
  | None =>
      match s with
      | [] => None
      | c :: s' =>
          if isLineTerminator c then None
          else match lazyUntilBase64 s' with
               | Some (group, rest) => Some (c :: group, rest)
               | None => None
               end
      end
  end.

(** The header pattern of the client, anchored at the start of the input:
    [data:], the lazy group, [;base64,]. *)
Definition execDataHeader (s : jsstring) : option (jsstring * jsstring) :=
  match stripPrefix (str "data:") s with
  | Some s' => lazyUntilBase64 s'
  | None => None
  end.

Definition buildRequest (base64Data : jsstring) : Request :=
  let mimeMatch := execDataHeader base64Data in
  let mimeType := match mimeMatch with
                  | Some (group, _) => group
                  | None => str "image/jpeg"
                  end in
  let cleanBase64 := match execDataHeader base64Data with
                     | Some (_, rest) => rest
                     | None => base64Data
                     end in
  {| model := str "gemini-3-flash-preview";
     inlineData := {| mimeType := mimeType; data := cleanBase64 |};
     text := str "Analyze this invoice document. Extract the Invoice Date, Invoice Number, PO Number, Quotation Number, Total Amount, Currency, and all line items (Description, Quantity, Unit Price, Total). Return the data in valid JSON format matching the schema.";
     responseMimeType := str "application/json";
     responseSchema := INVOICE_SCHEMA;
     systemInstruction := str "You are an expert accountant AI. Be precise with numbers and OCR extraction. If a field is not present (like PO or Quotation), return an empty string. Convert dates to YYYY-MM-DD format if possible." |}.

(** [JSON.parse(text) as InvoiceData]: [None] when [JSON.parse] throws.  The
    type assertion of the source is taken at its word. *)
Class JSONParser (num : Type) : Type := {
  JSON_parse : jsstring -> option (InvoiceData num)
}.

(* ================================================================== *)
(** ** Asynchronous code *)
(* ================================================================== *)

Section Model.
Context {num : Type} `{JSNumber num} `{JSONParser num}.

#[local] Abbreviation Item := (InvoiceSessionItem num).

(** The three updater functions that [analyzeItem] hands to [setItems]. *)
Inductive Update : Type :=
| MarkAnalyzing (target : jsstring)
| MarkSuccess (target : jsstring) (extracted : InvoiceData num)
| MarkError (target : jsstring).

(** The fixed failure message of [analyzeItem]: four CJK characters. *)
Definition FAILURE_MESSAGE : jsstring := [35672; 21029; 22833; 25943]%N.

(** [prev => prev.map(i => i.id === target ? { ...i, <changes> } : i)] *)
Definition applyUpdate (u : Update) (prev : list Item) : list Item :=
  match u with
  | MarkAnalyzing target =>
      map (fun i => if str_eqb (id i) target
                    then {| id := id i; file := file i; previewUrl := previewUrl i;
                            status := ANALYZING; result := result i;
                            error := None |}
                    else i) prev
  | MarkSuccess target extracted =>
      map (fun i => if str_eqb (id i) target
                    then {| id := id i; file := file i; previewUrl := previewUrl i;
                            status := SUCCESS; result := Some extracted;
                            error := error i |}
                    else i) prev
  | MarkError target =>
      map (fun i => if str_eqb (id i) target
                    then {| id := id i; file := file i; previewUrl := previewUrl i;
                            status := ERROR; result := result i;
                            error := Some FAILURE_MESSAGE |}
                    else i) prev
  end.

(** An asynchronous computation: the effects of the orchestrator up to its
    result.  [AwaitFile] is [await fileToBase64(file)] ([None]: the reader
    reports an error and the promise rejects); [AwaitGenerate] is
    [await ai.models.generateContent(request)]. *)
Inductive Async (A : Type) : Type :=
| Ret (a : A)
| SetItems (u : Update) (k : Async A)
| ConsoleError (k : Async A)
| AwaitFile (f : File) (k : option jsstring -> Async A)
| AwaitGenerate (r : Request) (k : Reply -> Async A).

Arguments Ret {A} a.
Arguments SetItems {A} u k.
Arguments ConsoleError {A} k.
Arguments AwaitFile {A} f k.
Arguments AwaitGenerate {A} r k.

Fixpoint bind {A B : Type} (m : Async A) (f : A -> Async B) : Async B :=
  match m with
  | Ret a => f a
  | SetItems u k => SetItems u (bind k f)
  | ConsoleError k => ConsoleError (bind k f)
  | AwaitFile fl k => AwaitFile fl (fun r => bind (k r) f)
  | AwaitGenerate r k => AwaitGenerate r (fun reply => bind (k reply) f)
  end.

(** [for (const x of l) { await body(x); }] *)
Fixpoint forOf {X : Type} (l : list X) (body : X -> Async unit) : Async unit :=
  match l with
  | [] => Ret tt
  | x :: rest => bind (body x) (fun _ => forOf rest body)
  end.

(** A thrown exception is the result [None]. *)
Definition fileToBase64 (f : File) : Async (option jsstring) :=
  AwaitFile f (fun r => Ret r).

(** The [catch] block of the client logs and rethrows. *)
Definition analyzeInvoiceImage (base64Data : jsstring)
  : Async (option (InvoiceData num)) :=
  AwaitGenerate (buildRequest base64Data) (fun reply =>
    match reply with
    | Rejected => ConsoleError (Ret None)
    | Resolved responseText =>
        match responseText with
        | None => ConsoleError (Ret None)
        | Some t =>
            if truthy t then
              match JSON_parse t with
              | Some parsed => Ret (Some parsed)
              | None => ConsoleError (Ret None)
              end
            else ConsoleError (Ret None)
        end
    end).

(* ================================================================== *)
(** ** src/App.tsx: the orchestrator *)
(* ================================================================== *)

Definition analyzeItem (item : Item) : Async unit :=
  let onCatch := ConsoleError (SetItems (MarkError (id item)) (Ret tt)) in
  SetItems (MarkAnalyzing (id item))
    (bind (fileToBase64 (file item)) (fun encoded =>
       match encoded with
       | None => onCatch
       | Some base64 =>
           bind (analyzeInvoiceImage base64) (fun extracted =>
             match extracted with
             | Some parsed => SetItems (MarkSuccess (id item) parsed) (Ret tt)
             | None => onCatch
             end)
       end)).

(** The same function, cut at its two [await]s: what remains to be done
    once the file is read, and once the client has returned or thrown. *)
Definition onCatch (item : Item) : Async unit :=
  ConsoleError (SetItems (MarkError (id item)) (Ret tt)).

Definition afterExtract (item : Item) (extracted : option (InvoiceData num))
  : Async unit :=
  match extracted with
  | Some parsed => SetItems (MarkSuccess (id item) parsed) (Ret tt)
  | None => onCatch item
  end.

Definition afterRead (item : Item) (encoded : option jsstring) : Async unit :=
  match encoded with
  | None => onCatch item
  | Some base64 => bind (analyzeInvoiceImage base64) (afterExtract item)
  end.

(** The cases in which [analyzeItem] reaches its [catch] block: the file
    reader fails, the request is rejected, the response has no text or an
    empty one, or the text does not parse. *)
Definition extractionFails (encoded : option jsstring) (reply : Reply) : bool :=
  match encoded with
  | None => true
  | Some _ =>
      match reply with
      | Rejected => true
      | Resolved None => true
      | Resolved (Some t) =>
          negb (truthy t) ||
          match JSON_parse t with Some _ => false | None => true end
      end
  end.

Definition isPending (i : Item) : bool :=
  AppStatus_eqb (status i) IDLE || AppStatus_eqb (status i) ERROR.

Definition handleAnalyzeAll (items : list Item) : Async unit :=
  let pendingItems := filter isPending items in
  forOf pendingItems analyzeItem.

Definition handleAnalyzeActive (activeItem : option Item) : Async unit :=
  match activeItem with
  | Some item => analyzeItem item
  | None => Ret tt
  end.

(* ================================================================== *)
(** ** src/App.tsx: the session store and its synchronous handlers *)
(* ================================================================== *)

(** The two [useState] cells of [App]: [items] (here [sessionItems], the name
    [items] being the field of [InvoiceData]) and [activeItemId]. *)
Record State : Type := {
  sessionItems : list Item;
  activeItemId : option jsstring
}.

(** [activeItemId === wanted], where [activeItemId] may be [null]. *)
Definition isActiveId (s : State) (wanted : jsstring) : bool :=
  match activeItemId s with
  | Some a => str_eqb a wanted
  | None => false
  end.

(** [items.find(item => item.id === activeItemId) || null] *)
Definition activeItem (s : State) : option Item :=
  find (fun item => match activeItemId s with
                    | Some a => str_eqb (id item) a
                    | None => false
                    end) (sessionItems s).

(** One selected file together with what the browser hands out for it:
    [crypto.randomUUID()] and [URL.createObjectURL(file)]. *)
Record Upload : Type := {
  randomUUID : jsstring;
  picked : File;
  objectURL : jsstring
}.

Definition handleFilesSelect (files : list Upload) (s : State) : State :=
  let newItems :=
    map (fun f => {| id := randomUUID f; file := picked f;
                     previewUrl := objectURL f; status := IDLE;
                     result := None; error := None |}) files in
  let nothingSelected := match activeItemId s with
                         | Some a => negb (truthy a)
                         | None => true
                         end in
  {| sessionItems := sessionItems s ++ newItems;
     activeItemId :=
       match newItems with
       | first :: _ =>
           if nothingSelected then Some (id first) else Some (id first)
       | [] => activeItemId s
       end |}.

(** Returns the new state and the preview URLs handed to
    [URL.revokeObjectURL]. *)
Definition handleRemoveItem (wanted : jsstring) (s : State)
  : State * list jsstring :=
  let itemToRemove := find (fun i => str_eqb (id i) wanted) (sessionItems s) in
  let revoked := match itemToRemove with
                 | Some i => [previewUrl i]
                 | None => []
                 end in
  let newItems := filter (fun i => negb (str_eqb (id i) wanted)) (sessionItems s) in
  ({| sessionItems := newItems;
      activeItemId :=
        if isActiveId s wanted then
          match newItems with
          | first :: _ => Some (id first)
          | [] => None
          end
        else activeItemId s |},
   revoked).

Definition handleDataChange (newData : InvoiceData num) (s : State) : State :=
  match activeItemId s with
  | Some a =>
      if truthy a then
        {| sessionItems :=
             map (fun i => if str_eqb (id i) a
                           then {| id := id i; file := file i;
                                   previewUrl := previewUrl i; status := status i;
                                   result := Some newData; error := error i |}
                           else i) (sessionItems s);
           activeItemId := activeItemId s |}
      else s
  | None => s
  end.

(** [onClick={() => setActiveItemId(item.id)}] *)
Definition selectItem (wanted : jsstring) (s : State) : State :=
  {| sessionItems := sessionItems s; activeItemId := Some wanted |}.

(* ================================================================== *)
(** ** src/App.tsx: the exporter *)
(* ================================================================== *)

Definition headers : list jsstring :=
  [ str "File Name"; str "Invoice Date"; str "Invoice Number"; str "PO Number";
    str "Quotation Number"; str "Currency"; str "Items Details";
    str "Invoice Total Amount" ].

(** A template literal that wraps a value in double quotes. *)
Definition quoted (s : jsstring) : jsstring := [QUOTE] ++ s ++ [QUOTE].

Definition lineItemSummary (lineItem : LineItem num) : jsstring :=
  let safeDesc := trim (replaceQuotesByApostrophes (description lineItem)) in
  safeDesc ++ str " (Qty: " ++ numToString (quantity lineItem)
           ++ str ", Unit: " ++ numToString (unitPrice lineItem)
           ++ str ", Total: " ++ numToString (total lineItem) ++ str ")".

Definition itemsSummary (extracted : InvoiceData num) : jsstring :=
  let validItems := filter (fun lineItem => negb (isZero (total lineItem)))
                           (items extracted) in
  join [NEWLINE] (map lineItemSummary validItems).

Definition csvRow (item : Item) (extracted : InvoiceData num) : list jsstring :=
  [ quoted (doubleQuotes (name (file item)));
    quoted (orEmpty (invoiceDate extracted));
    quoted (orEmpty (invoiceNumber extracted));
    quoted (orEmpty (poNumber extracted));
    quoted (orEmpty (quotationNumber extracted));
    quoted (orEmpty (currency extracted));
    quoted (itemsSummary extracted);
    numToString (totalAmount extracted) ].

(** The text appended to [csvContent] for one element of [successItems]. *)
Definition csvLine (item : Item) : jsstring :=
  match result item with
  | Some extracted => join [COMMA] (csvRow item extracted) ++ [NEWLINE]
  | None => []
  end.

Definition isExportable (i : Item) : bool :=
  AppStatus_eqb (status i) SUCCESS &&
  match result i with Some _ => true | None => false end.

(** The file offered for download: the parts and type of the [Blob] and the
    [download] attribute of the link. *)
Record Download : Type := {
  blobText : jsstring;
  blobType : jsstring;
  downloadName : jsstring
}.

(** [isoNow] is [new Date().toISOString()].  [None]: the early [return]. *)
Definition handleExportCSV (isoNow : jsstring) (s : State) : option Download :=
  let successItems := filter isExportable (sessionItems s) in
  match successItems with
  | [] => None
  | _ :: _ =>
      let csvContent :=
        fold_left (fun acc item => acc ++ csvLine item) successItems
                  (join [COMMA] headers ++ [NEWLINE]) in
      Some {| blobText := [BOM] ++ csvContent;
              blobType := str "text/csv;charset=utf-8;";
              downloadName := str "invoices_export_" ++ firstn 10 isoNow
                                ++ str ".csv" |}
  end.

(* ================================================================== *)
(** ** The event loop *)
(* ================================================================== *)

(** What an asynchronous computation does that is visible from outside. *)
Inductive Effect : Type :=
| DidSetItems (u : Update)
| DidConsoleError
| DidReadFile (f : File)
| DidRequest (r : Request).

(** A computation parked at an [await], or over. *)
Inductive Suspended : Type :=
| AwaitingFile (f : File) (k : option jsstring -> Async unit)
| AwaitingReply (r : Request) (k : Reply -> Async unit)
| Finished.

(** What the environment delivers to a parked computation. *)
Inductive Answer : Type :=
| FileRead (dataUrl : option jsstring)
| Answered (reply : Reply).

(** Runs a computation up to its next [await]: the store updates are applied
    in order, the read or the request is issued, and the computation parks. *)
Fixpoint advance (p : Async unit) (its : list Item)
  : Suspended * list Item * list Effect :=
  match p with
  | Ret _ => (Finished, its, [])
  | SetItems u k =>
      let '(s, its', effs) := advance k (applyUpdate u its) in
      (s, its', DidSetItems u :: effs)
  | ConsoleError k =>
      let '(s, its', effs) := advance k its in
      (s, its', DidConsoleError :: effs)
  | AwaitFile f k => (AwaitingFile f k, its, [DidReadFile f])
  | AwaitGenerate r k => (AwaitingReply r k, its, [DidRequest r])
  end.

(** The continuation of a parked computation, when the answer is the one it
    waits for. *)
Definition resume (s : Suspended) (a : Answer) : option (Async unit) :=
  match s, a with
  | AwaitingFile _ k, FileRead r => Some (k r)
  | AwaitingReply _ k, Answered reply => Some (k reply)
  | _, _ => None
  end.

(** One computation on its own, fed the answers of the environment in
    order (an answer it does not wait for is dropped). *)
Fixpoint settle (s : Suspended) (answers : list Answer) (its : list Item)
  : Suspended * list Item * list Effect :=
  match answers with
  | [] => (s, its, [])
  | a :: rest =>
      match resume s a with
      | Some p =>
          let '(s1, its1, effs1) := advance p its in
          let '(s2, its2, effs2) := settle s1 rest its1 in
          (s2, its2, effs1 ++ effs2)
      | None => settle s rest its
      end
  end.

Definition runAlone (p : Async unit) (answers : list Answer) (its : list Item)
  : Suspended * list Item * list Effect :=
  let '(s1, its1, effs1) := advance p its in
  let '(s2, its2, effs2) := settle s1 answers its1 in
  (s2, its2, effs1 ++ effs2).

(** An entry of the log of a session, oldest first. *)
Inductive Entry : Type :=
| ByFlow (flow : nat) (e : Effect)
| Revoked (url : jsstring)
| Downloaded (d : Download).

(** The application between two events: the store, every call of
    [analyzeItem] or [handleAnalyzeAll] made so far (parked or over), and
    what has happened. *)
Record World : Type := {
  store : State;
  flows : list Suspended;
  log : list Entry
}.

Definition initialWorld : World :=
  {| store := {| sessionItems := []; activeItemId := None |};
     flows := [];
     log := [] |}.

(** What the user and the environment can do. *)
Inductive Action : Type :=
| FilesSelect (files : list Upload)
| SelectItem (wanted : jsstring)
| AnalyzeActive
| AnalyzeAll
| RemoveItem (wanted : jsstring)
| DataChange (newData : InvoiceData num)
| ExportCSV (isoNow : jsstring)
| Deliver (flow : nat) (a : Answer).

Fixpoint setNth {X : Type} (n : nat) (x : X) (l : list X) : list X :=
  match l, n with
  | [], _ => []
  | _ :: r, O => x :: r
  | y :: r, S n' => y :: setNth n' x r
  end.

(** Starts a computation from an event handler. *)
Definition spawn (p : Async unit) (w : World) : World :=
  let '(s, its, effs) := advance p (sessionItems (store w)) in
  {| store := {| sessionItems := its; activeItemId := activeItemId (store w) |};
     flows := flows w ++ [s];
     log := log w ++ map (ByFlow (length (flows w))) effs |}.

(** Hands an answer to the parked computation number [n]. *)
Definition deliver (n : nat) (a : Answer) (w : World) : World :=
  match nth_error (flows w) n with
  | Some s =>
      match resume s a with
      | Some p =>
          let '(s', its, effs) := advance p (sessionItems (store w)) in
          {| store := {| sessionItems := its;
                         activeItemId := activeItemId (store w) |};
             flows := setNth n s' (flows w);
             log := log w ++ map (ByFlow n) effs |}
      | None => w
      end
  | None => w
  end.

Definition hasId (wanted : jsstring) (its : list Item) : bool :=
  existsb (fun i => str_eqb (id i) wanted) its.

(** Whether the control that fires the action is rendered. *)
Definition enabled (w : World) (a : Action) : bool :=
  let s := store w in
  match a with
  | FilesSelect files => negb (Nat.eqb (length files) 0)
  | SelectItem wanted => hasId wanted (sessionItems s)
  | AnalyzeActive =>
      match activeItem s with
      | Some item =>
          isPending item ||
          (match result item with Some _ => false | None => true end
           && AppStatus_eqb (status item) ERROR)
      | None => false
      end
  | AnalyzeAll => existsb isPending (sessionItems s)
  | RemoveItem wanted => hasId wanted (sessionItems s)
  | DataChange _ =>
      match activeItem s with
      | Some item => match result item with Some _ => true | None => false end
      | None => false
      end
  | ExportCSV _ =>
      existsb (fun i => AppStatus_eqb (status i) SUCCESS) (sessionItems s)
  | Deliver _ _ => true
  end.

Definition withStore (s : State) (w : World) : World :=
  {| store := s; flows := flows w; log := log w |}.

(** The handler behind each control. *)
Definition fire (a : Action) (w : World) : World :=
  match a with
  | FilesSelect files => withStore (handleFilesSelect files (store w)) w
  | SelectItem wanted => withStore (selectItem wanted (store w)) w
  | AnalyzeActive => spawn (handleAnalyzeActive (activeItem (store w))) w
  | AnalyzeAll => spawn (handleAnalyzeAll (sessionItems (store w))) w
  | RemoveItem wanted =>
      let '(s, revoked) := handleRemoveItem wanted (store w) in
      {| store := s; flows := flows w; log := log w ++ map Revoked revoked |}
  | DataChange newData => withStore (handleDataChange newData (store w)) w
  | ExportCSV isoNow =>
      match handleExportCSV isoNow (store w) with
      | Some d => {| store := store w; flows := flows w;
                     log := log w ++ [Downloaded d] |}
      | None => w
      end
  | Deliver n a => deliver n a w
  end.

Definition step (w : World) (a : Action) : World :=
  if enabled w a then fire a w else w.

Definition session (actions : list Action) : World :=
  fold_left step actions initialWorld.

End Model.

Arguments Update num : clear implicits.
Arguments Async num A : clear implicits.
Arguments Ret {num A} a.
Arguments SetItems {num A} u k.
Arguments ConsoleError {num A} k.
Arguments AwaitFile {num A} f k.
Arguments AwaitGenerate {num A} r k.
Arguments State num : clear implicits.
Arguments Effect num : clear implicits.
Arguments Suspended num : clear implicits.
Arguments Entry num : clear implicits.
Arguments World num : clear implicits.
Arguments Action num : clear implicits.

(* ================================================================== *)
(** ** src/components/ResultDisplay.tsx: the edit form *)
(* ================================================================== *)

Section ResultDisplay.
Context {num : Type} `{JSNumber num} `{JSONParser num}.

(** The calls of [handleInputChange] that the form makes: the four text
    inputs pass their text, the total-amount input passes the [parseFloat]
    of its text.  There is no input for the currency or for the items as a
    whole. *)
Inductive InputChange : Type :=
| ChangeInvoiceNumber (value : jsstring)
| ChangeInvoiceDate (value : jsstring)
| ChangePoNumber (value : jsstring)
| ChangeQuotationNumber (value : jsstring)
| ChangeTotalAmount (value : num).

(** The argument of [onChange]: [{ ...data, [field]: value }]. *)
Definition handleInputChange (extracted : InvoiceData num) (c : InputChange)
  : InvoiceData num :=
  match c with
  | ChangeInvoiceNumber value =>
      {| invoiceDate := invoiceDate extracted; invoiceNumber := value;
         poNumber := poNumber extracted;
         quotationNumber := quotationNumber extracted;
         totalAmount := totalAmount extracted; currency := currency extracted;
         items := items extracted |}
  | ChangeInvoiceDate value =>
      {| invoiceDate := value; invoiceNumber := invoiceNumber extracted;
         poNumber := poNumber extracted;
         quotationNumber := quotationNumber extracted;
         totalAmount := totalAmount extracted; currency := currency extracted;
         items := items extracted |}
  | ChangePoNumber value =>
      {| invoiceDate := invoiceDate extracted;
         invoiceNumber := invoiceNumber extracted; poNumber := value;
         quotationNumber := quotationNumber extracted;
         totalAmount := totalAmount extracted; currency := currency extracted;
         items := items extracted |}
  | ChangeQuotationNumber value =>
      {| invoiceDate := invoiceDate extracted;
         invoiceNumber := invoiceNumber extracted;
         poNumber := poNumber extracted; quotationNumber := value;
         totalAmount := totalAmount extracted; currency := currency extracted;
         items := items extracted |}
  | ChangeTotalAmount value =>
      {| invoiceDate := invoiceDate extracted;
         invoiceNumber := invoiceNumber extracted;
         poNumber := poNumber extracted;
         quotationNumber := quotationNumber extracted;
         totalAmount := value; currency := currency extracted;
         items := items extracted |}
  end.

(** The calls of [handleItemChange] that a table row makes: the description
    input passes its text, the three number inputs the [parseFloat] of
    theirs. *)
Inductive ItemChange : Type :=
| ChangeDescription (value : jsstring)
| ChangeQuantity (value : num)
| ChangeUnitPrice (value : num)
| ChangeTotal (value : num).

(** [lineItem[field] = value] *)
Definition assignField (lineItem : LineItem num) (c : ItemChange) : LineItem num :=
  match c with
  | ChangeDescription value =>
      {| description := value; quantity := quantity lineItem;
         unitPrice := unitPrice lineItem; total := total lineItem |}
  | ChangeQuantity value =>
      {| description := description lineItem; quantity := value;
         unitPrice := unitPrice lineItem; total := total lineItem |}
  | ChangeUnitPrice value =>
      {| description := description lineItem; quantity := quantity lineItem;
         unitPrice := value; total := total lineItem |}
  | ChangeTotal value =>
      {| description := description lineItem; quantity := quantity lineItem;
         unitPrice := unitPrice lineItem; total := value |}
  end.

(** The argument of [onChange], or [None] when [newItems[index]] is
    [undefined] and the assignment throws.  The assignment is made on the
    line-item object itself, which the previous [data] shares; the value
    handed to [onChange] is what is modelled here. *)
Definition handleItemChange (extracted : InvoiceData num) (index : nat)
           (c : ItemChange) : option (InvoiceData num) :=
  let newItems := items extracted in
  match nth_error newItems index with
  | Some lineItem =>
      Some {| invoiceDate := invoiceDate extracted;
              invoiceNumber := invoiceNumber extracted;
              poNumber := poNumber extracted;
              quotationNumber := quotationNumber extracted;
              totalAmount := totalAmount extracted;
              currency := currency extracted;
              items := setNth index (assignField lineItem c) newItems |}
  | None => None
  end.

(** The form as [App] mounts it: [data] is the result of the active item and
    [onChange] is [handleDataChange]. *)
Definition editInput (c : InputChange) (s : State num) : State num :=
  match activeItem s with
  | Some item =>
      match result item with
      | Some extracted => handleDataChange (handleInputChange extracted c) s
      | None => s
      end
  | None => s
  end.

Definition editItem (index : nat) (c : ItemChange) (s : State num) : State num :=
  match activeItem s with
  | Some item =>
      match result item with
      | Some extracted =>
          match handleItemChange extracted index c with
          | Some newData => handleDataChange newData s
          | None => s
          end
      | None => s
      end
  | None => s
  end.

End ResultDisplay.

Arguments InputChange num : clear implicits.
Arguments ItemChange num : clear implicits.

(* ================================================================== *)
(** ** Vocabulary of the properties *)
(* ================================================================== *)

Section Vocabulary.
Context {num : Type} `{JSNumber num} `{JSONParser num}.

#[local] Abbreviation Item := (InvoiceSessionItem num).

(** An item after the failure update. *)
Definition markedError (i : Item) : Item :=
  {| id := id i; file := file i; previewUrl := previewUrl i; status := ERROR;
     result := result i; error := Some FAILURE_MESSAGE |}.

(** The cells of the row of an exportable document. *)
Definition rowOf (item : Item) : list jsstring :=
  match result item with
  | Some extracted => csvRow item extracted
  | None => []
  end.

(** Every store update of a computation aims at the same item. *)
Inductive AimsAt (target : jsstring) {A : Type} : Async num A -> Prop :=
| aims_ret a : AimsAt target (Ret a)
| aims_analyzing k :
    AimsAt target k -> AimsAt target (SetItems (MarkAnalyzing target) k)
| aims_success d k :
    AimsAt target k -> AimsAt target (SetItems (MarkSuccess target d) k)
| aims_error k :
    AimsAt target k -> AimsAt target (SetItems (MarkError target) k)
| aims_console k : AimsAt target k -> AimsAt target (ConsoleError k)
| aims_file f k :
    (forall r, AimsAt target (k r)) -> AimsAt target (AwaitFile f k)
| aims_generate r k :
    (forall reply, AimsAt target (k reply)) -> AimsAt target (AwaitGenerate r k).

Definition AimsAtParked (target : jsstring) (s : Suspended num) : Prop :=
  match s with
  | AwaitingFile _ k => forall r, AimsAt target (k r)
  | AwaitingReply _ k => forall reply, AimsAt target (k reply)
  | Finished => True
  end.

(** The two updates that end an extraction. *)
Definition isFinalFor (target : jsstring) (u : Update num) : Prop :=
  match u with
  | MarkAnalyzing _ => False
  | MarkSuccess t _ | MarkError t => t = target
  end.

(** A computation that, whatever the environment answers, ends with exactly
    one final update of [target] and makes no other store update. *)
Inductive Completes (target : jsstring) : Async num unit -> Prop :=
| completes_final u :
    isFinalFor target u -> Completes target (SetItems u (Ret tt))
| completes_console k :
    Completes target k -> Completes target (ConsoleError k)
| completes_file f k :
    (forall r, Completes target (k r)) -> Completes target (AwaitFile f k)
| completes_generate r k :
    (forall reply, Completes target (k reply)) ->
    Completes target (AwaitGenerate r k).

(** The effects of one computation follow the one-at-a-time discipline over
    the documents [ids] still to be started: a document is started only when
    none is in progress ([busy] is [None]) and it is the next of [ids]; a
    request is issued only for the document in progress; a final update is
    for the document in progress and ends it. *)
Fixpoint Sequential (ids : list jsstring) (busy : option jsstring)
         (tr : list (Effect num)) : Prop :=
  match tr with
  | [] => True
  | DidSetItems (MarkAnalyzing t) :: tr' =>
      match busy, ids with
      | None, next :: later => t = next /\ Sequential later (Some t) tr'
      | _, _ => False
      end
  | DidSetItems (MarkSuccess t _) :: tr' | DidSetItems (MarkError t) :: tr' =>
      busy = Some t /\ Sequential ids None tr'
  | DidRequest _ :: tr' => busy <> None /\ Sequential ids busy tr'
  | DidConsoleError :: tr' | DidReadFile _ :: tr' => Sequential ids busy tr'
  end.

(** The targets of the updates that start an extraction, in order. *)
Fixpoint startTargets (tr : list (Effect num)) : list jsstring :=
  match tr with
  | [] => []
  | DidSetItems (MarkAnalyzing t) :: tr' => t :: startTargets tr'
  | _ :: tr' => startTargets tr'
  end.

(** The targets of the updates that end an extraction, in order. *)
Fixpoint finalTargets (tr : list (Effect num)) : list jsstring :=
  match tr with
  | [] => []
  | DidSetItems (MarkSuccess t _) :: tr' | DidSetItems (MarkError t) :: tr' =>
      t :: finalTargets tr'
  | _ :: tr' => finalTargets tr'
  end.

(** The effects of computation number [n] in a log, in order. *)
Fixpoint flowEffects (n : nat) (lg : list (Entry num)) : list (Effect num) :=
  match lg with
  | [] => []
  | ByFlow m e :: lg' =>
      if Nat.eqb m n then e :: flowEffects n lg' else flowEffects n lg'
  | _ :: lg' => flowEffects n lg'
  end.

(** The answers delivered to computation number [n] by a run of actions. *)
Fixpoint answersTo (n : nat) (actions : list (Action num)) : list Answer :=
  match actions with
  | [] => []
  | Deliver m a :: actions' =>
      if Nat.eqb m n then a :: answersTo n actions' else answersTo n actions'
  | _ :: actions' => answersTo n actions'
  end.

(** Whenever a request is issued, the documents started so far are the first
    [j + 1] of [pending], in order, and the documents whose final update has
    been applied are the first [j]: the request is the one of document [j],
    and every document before it is settled. *)
Definition OneAtATime (pending : list Item) (tr : list (Effect num)) : Prop :=
  forall l1 r l2,
    tr = l1 ++ DidRequest r :: l2 ->
    exists j, j < length pending /\
              startTargets l1 = map id (firstn (S j) pending) /\
              finalTargets l1 = map id (firstn j pending).

(** The outcome of a run, with earlier effects put in front. *)
Definition andThen (before : list (Effect num))
           (x : Suspended num * list Item * list (Effect num))
  : Suspended num * list Item * list (Effect num) :=
  (fst (fst x), snd (fst x), before ++ snd x).

(** The answers of an environment in which every file is read as [dataUrl]
    and every request is answered by [reply]. *)
Definition steadyAnswers (dataUrl : jsstring) (reply : Reply) (docs : list Item)
  : list Answer :=
  flat_map (fun _ => [FileRead (Some dataUrl); Answered reply]) docs.

(** Every action of a run is one the interface offers when it is taken. *)
Fixpoint allEnabled (w : World num) (actions : list (Action num)) : bool :=
  match actions with
  | [] => true
  | a :: actions' => enabled w a && allEnabled (step w a) actions'
  end.

(** The status of each document of the store, by id. *)
Definition statuses (w : World num) : list (jsstring * AppStatus) :=
  map (fun i => (id i, status i)) (sessionItems (store w)).

(** A string without a double quote. *)
Definition quoteFree (s : jsstring) : bool :=
  forallb (fun c => negb (N.eqb c QUOTE)) s.

(** The three numbers of a line item print without a double quote. *)
Definition printsQuoteFree (lineItem : LineItem num) : bool :=
  quoteFree (numToString (quantity lineItem)) &&
  quoteFree (numToString (unitPrice lineItem)) &&
  quoteFree (numToString (total lineItem)).

(** A string without a line terminator. *)
Definition onOneLine (s : jsstring) : bool :=
  forallb (fun c => negb (isLineTerminator c)) s.

(** A string without a semicolon. *)
Definition semicolonFree (s : jsstring) : bool :=
  forallb (fun c => negb (N.eqb c 59)) s.

(** A list without its element number [index]. *)
Definition removeNth {X : Type} (index : nat) (l : list X) : list X :=
  firstn index l ++ skipn (S index) l.

(** Everything of a document but its extracted data. *)
Definition besidesResult (i : Item)
  : jsstring * File * jsstring * AppStatus * option jsstring :=
  (id i, file i, previewUrl i, status i, error i).

(** What identifies a document: fixed when it is uploaded. *)
Definition identity (i : Item) : jsstring * File * jsstring :=
  (id i, file i, previewUrl i).

(** From [s] to [s'] nothing but the extracted data of the selected
    documents may differ. *)
Definition onlyResultsOfSelected (s s' : State num) : Prop :=
  activeItemId s' = activeItemId s /\
  map besidesResult (sessionItems s') = map besidesResult (sessionItems s) /\
  forall n i, nth_error (sessionItems s) n = Some i ->
              isActiveId s (id i) = false ->
              nth_error (sessionItems s') n = Some i.

(** The selection is empty or is the id of a document of the store. *)
Definition selectionValid (s : State num) : Prop :=
  match activeItemId s with
  | Some a => hasId a (sessionItems s) = true
  | None => True
  end.

(** A failed document carries the failure message. *)
Definition errorShown (i : Item) : Prop :=
  status i = ERROR -> error i = Some FAILURE_MESSAGE.

(** No string occurs twice. *)
Fixpoint distinct (l : list jsstring) : bool :=
  match l with
  | [] => true
  | x :: r => negb (existsb (str_eqb x) r) && distinct r
  end.

(** The identifiers handed out for an upload are new and different from
    each other. *)
Definition freshAt (w : World num) (a : Action num) : bool :=
  match a with
  | FilesSelect files =>
      distinct (map randomUUID files) &&
      forallb (fun f => negb (hasId (randomUUID f) (sessionItems (store w)))) files
  | _ => true
  end.

Fixpoint freshAlong (w : World num) (actions : list (Action num)) : bool :=
  match actions with
  | [] => true
  | a :: actions' => freshAt w a && freshAlong (step w a) actions'
  end.

(** What the environment answers for one document: the result of reading
    its file and, if it is read, the reply to its request. *)
Definition docAnswers (o : option jsstring * Reply) : list Answer :=
  match fst o with
  | None => [FileRead None]
  | Some dataUrl => [FileRead (Some dataUrl); Answered (snd o)]
  end.

(** The data an extraction yields, if it does not fail. *)
Definition extractedFrom (o : option jsstring * Reply) : option (InvoiceData num) :=
  match fst o, snd o with
  | Some _, Resolved (Some t) => if truthy t then JSON_parse t else None
  | _, _ => None
  end.

(** The final update of an extraction with the given answers. *)
Definition outcomeUpdate (item : Item) (o : option jsstring * Reply) : Update num :=
  match extractedFrom o with
  | Some parsed => MarkSuccess (id item) parsed
  | None => MarkError (id item)
  end.

(** One stored document after the extraction started for [item] has run
    with the given answers. *)
Definition settleItem (item : Item) (o : option jsstring * Reply) (i : Item) : Item :=
  if str_eqb (id i) (id item) then
    match extractedFrom o with
    | Some parsed =>
        {| id := id i; file := file i; previewUrl := previewUrl i;
           status := SUCCESS; result := Some parsed; error := None |}
    | None =>
        {| id := id i; file := file i; previewUrl := previewUrl i;
           status := ERROR; result := result i;
           error := Some FAILURE_MESSAGE |}
    end
  else i.

(** The number of file reads and of requests among some effects. *)
Fixpoint readsIn (effs : list (Effect num)) : nat :=
  match effs with
  | [] => 0
  | DidReadFile _ :: effs' => S (readsIn effs')
  | _ :: effs' => readsIn effs'
  end.

Fixpoint requestsIn (effs : list (Effect num)) : nat :=
  match effs with
  | [] => 0
  | DidRequest _ :: effs' => S (requestsIn effs')
  | _ :: effs' => requestsIn effs'
  end.

(** A computation that, on every path, reads at most [reads] files and
    issues at most [requests] requests. *)
Inductive AtMost : nat -> nat -> Async num unit -> Prop :=
| atMost_ret reads requests a : AtMost reads requests (Ret a)
| atMost_set reads requests u k :
    AtMost reads requests k -> AtMost reads requests (SetItems u k)
| atMost_console reads requests k :
    AtMost reads requests k -> AtMost reads requests (ConsoleError k)
| atMost_file reads requests f k :
    (forall r, AtMost reads requests (k r)) ->
    AtMost (S reads) requests (AwaitFile f k)
| atMost_generate reads requests r k :
    (forall reply, AtMost reads requests (k reply)) ->
    AtMost reads (S requests) (AwaitGenerate r k).

(** What one document of a batch does, from its first update to its final
    one, given the answers of the environment: the update that marks it, the
    read of its file and, if the file is read, the request built from it;
    then nothing logged and the success update if the reply yields data, and
    otherwise the logging of the failure (twice when it comes from the
    client) and the failure update. *)
Definition docEffects (item : Item) (o : option jsstring * Reply)
  : list (Effect num) :=
  DidSetItems (MarkAnalyzing (id item)) ::
  DidReadFile (file item) ::
  match fst o with
  | None => [DidConsoleError; DidSetItems (MarkError (id item))]
  | Some dataUrl =>
      DidRequest (buildRequest dataUrl) ::
      match extractedFrom o with
      | Some parsed => [DidSetItems (MarkSuccess (id item) parsed)]
      | None => [DidConsoleError; DidConsoleError;
                 DidSetItems (MarkError (id item))]
      end
  end.

(** The store updates among some effects, in order. *)
Fixpoint updatesIn (effs : list (Effect num)) : list (Update num) :=
  match effs with
  | [] => []
  | DidSetItems u :: effs' => u :: updatesIn effs'
  | _ :: effs' => updatesIn effs'
  end.

(** No computation is parked at an [await]. *)
Definition allFinished (fl : list (Suspended num)) : bool :=
  forallb (fun s => match s with Finished => true | _ => false end) fl.

(** No action of the run presses one of the two analyse buttons. *)
Definition startsNoAnalysis (actions : list (Action num)) : bool :=
  forallb (fun a => match a with
                    | AnalyzeActive | AnalyzeAll => false
                    | _ => true
                    end) actions.

(** An entry that is not the effect of a computation other than number
    [n]. *)
Definition notOfAnother (n : nat) (e : Entry num) : Prop :=
  match e with
  | ByFlow m _ => m = n
  | _ => True
  end.

End Vocabulary.

(* ================================================================== *)
(** ** A concrete session: the example of the specification *)
(* ================================================================== *)

Definition widget : LineItem Z :=
  {| description := str "Widget"; quantity := 2; unitPrice := 500;
     total := 1000 |}%Z.

Definition widgetInvoice : InvoiceData Z :=
  {| invoiceDate := str "2024-01-15"; invoiceNumber := str "INV-001";
     poNumber := []; quotationNumber := []; totalAmount := 1000%Z;
     currency := str "USD"; items := [widget] |}.

(** The response text of the endpoint for [widgetInvoice]. *)
Definition widgetJson : jsstring :=
  str "{" ++ quoted (str "invoiceDate") ++ str ":" ++ quoted (str "2024-01-15")
  ++ str "," ++ quoted (str "invoiceNumber") ++ str ":" ++ quoted (str "INV-001")
  ++ str "," ++ quoted (str "poNumber") ++ str ":" ++ quoted []
  ++ str "," ++ quoted (str "quotationNumber") ++ str ":" ++ quoted []
  ++ str "," ++ quoted (str "totalAmount") ++ str ":1000"
  ++ str "," ++ quoted (str "currency") ++ str ":" ++ quoted (str "USD")
  ++ str "," ++ quoted (str "items") ++ str ":[{"
  ++ quoted (str "description") ++ str ":" ++ quoted (str "Widget")
  ++ str "," ++ quoted (str "quantity") ++ str ":2"
  ++ str "," ++ quoted (str "unitPrice") ++ str ":500"
  ++ str "," ++ quoted (str "total") ++ str ":1000}]}".

(** A parser that knows the one text of the examples; any other text is a
    syntax error. *)
#[export] Instance exampleParser : JSONParser Z := {
  JSON_parse := fun t => if str_eqb t widgetJson then Some widgetInvoice else None
}.

Definition firstUpload : Upload :=
  {| randomUUID := str "id-a";
     picked := {| name := str "a.png"; type := str "image/png" |};
     objectURL := str "blob:a" |}.

Definition secondUpload : Upload :=
  {| randomUUID := str "id-b";
     picked := {| name := str "b.png"; type := str "image/png" |};
     objectURL := str "blob:b" |}.

(** Two documents of a store: one analysed, one waiting. *)
Definition documentA : InvoiceSessionItem Z :=
  {| id := str "id-a";
     file := {| name := str "a.png"; type := str "image/png" |};
     previewUrl := str "blob:a"; status := SUCCESS;
     result := Some widgetInvoice; error := None |}.

Definition documentB : InvoiceSessionItem Z :=
  {| id := str "id-b";
     file := {| name := str "b.png"; type := str "image/png" |};
     previewUrl := str "blob:b"; status := IDLE;
     result := None; error := None |}.

(** A document whose file name, invoice number and item description each
    contain a double quote. *)
Definition quotedInvoice : InvoiceData Z :=
  {| invoiceDate := str "2024-02-01";
     invoiceNumber := str "INV" ++ [QUOTE] ++ str "7";
     poNumber := []; quotationNumber := []; totalAmount := 40%Z;
     currency := str "EUR";
     items := [ {| description := str "3" ++ [QUOTE] ++ str " pipe";
                   quantity := 1%Z; unitPrice := 40%Z; total := 40%Z |} ] |}.

Definition quotedItem : InvoiceSessionItem Z :=
  {| id := str "id-q";
     file := {| name := str "scan" ++ [QUOTE] ++ str "1.png";
                type := str "image/png" |};
     previewUrl := str "blob:q"; status := SUCCESS;
     result := Some quotedInvoice; error := None |}.



Definition pngDataUrl : jsstring := str "data:image/png;base64,iVBORw0KGgo=".

(** Two files are uploaded and the batch button is pressed twice, the second
    time while the first document is being analysed and the second is still
    waiting.  The second batch analyses the second document, with success;
    the first batch then reads the file of the first document. *)
Definition overlappingSession : list (Action Z) :=
  [ FilesSelect [firstUpload; secondUpload];
    AnalyzeAll;
    AnalyzeAll;
    Deliver 1 (FileRead (Some pngDataUrl));
    Deliver 1 (Answered (Resolved (Some widgetJson)));
    Deliver 0 (FileRead (Some pngDataUrl)) ].


(** A store with the two documents, the first one selected. *)
Definition twoDocuments : State Z :=
  {| sessionItems := [documentA; documentB]; activeItemId := Some (str "id-a") |}.

(** The answers of the environment for [documentB]: its file is read and the
    endpoint replies with [widgetJson]. *)
Definition answeredB : list (InvoiceSessionItem Z * (option jsstring * Reply)) :=
  [ (documentB, (Some pngDataUrl, Resolved (Some widgetJson))) ].

(* ================================================================== *)
(** * Properties *)
(* ================================================================== *)

Section Properties.
Context {num : Type} `{JSNumber num} `{JSONParser num}.

#[local] Abbreviation Item := (InvoiceSessionItem num).

(* ------------------------------------------------------------------ *)
(** ** Strings *)

Lemma str_eqb_eq (a b : jsstring) : str_eqb a b = true <-> a = b.
Proof.
  revert b; induction a as [|x a IH]; intros [|y b]; simpl;
    try (split; [discriminate | congruence]); try tauto.
  rewrite andb_true_iff, N.eqb_eq, IH. split.
  - intros [-> ->]; reflexivity.
  - intros E; injection E; auto.
Qed.

Lemma str_eqb_refl (a : jsstring) : str_eqb a a = true.
Proof. apply str_eqb_eq; reflexivity. Qed.

Lemma str_eqb_neq (a b : jsstring) : str_eqb a b = false <-> a <> b.
Proof.
  rewrite <- str_eqb_eq. destruct (str_eqb a b); split; congruence.
Qed.

Lemma hasId_false (wanted : jsstring) (its : list Item) :
  hasId wanted its = false <-> forall i, In i its -> id i <> wanted.
Proof.
  unfold hasId. induction its as [|x its IH]; simpl.
  - split; [intros _ i [] | reflexivity].
  - rewrite orb_false_iff, IH, str_eqb_neq. split.
    + intros [Hx Hr] i [<- | Hi]; auto.
    + intros Hall; split; [apply Hall; auto | intros i Hi; apply Hall; auto].
Qed.

(* ------------------------------------------------------------------ *)
(** ** Store updates *)

Lemma map_id_on (f : Item -> Item) (its : list Item) :
  (forall i, In i its -> f i = i) -> map f its = its.
Proof.
  induction its as [|x its IH]; simpl; intros Hf; [reflexivity|].
  rewrite Hf by auto. rewrite IH; auto.
Qed.

(** An update whose target is not in the store changes nothing. *)
Lemma applyUpdate_absent (u : Update num) (its : list Item) :
  hasId (match u with
         | MarkAnalyzing t | MarkSuccess t _ | MarkError t => t
         end) its = false ->
  applyUpdate u its = its.
Proof.
  intros Habs. rewrite hasId_false in Habs.
  destruct u; simpl; apply map_id_on; intros i Hi;
    apply Habs in Hi; apply str_eqb_neq in Hi; rewrite Hi; reflexivity.
Qed.

Lemma analyzeItem_aims (item : Item) : AimsAt (id item) (analyzeItem item).
Proof.
  unfold analyzeItem, fileToBase64, analyzeInvoiceImage; simpl.
  repeat (constructor; intros).
  destruct r as [base64|]; simpl; repeat (constructor; intros).
  destruct reply as [|[t|]]; simpl; repeat constructor.
  destruct (truthy t); simpl; repeat constructor.
  destruct (JSON_parse t); simpl; repeat constructor.
Qed.

Lemma advance_aims (target : jsstring) (p : Async num unit) (its : list Item) :
  AimsAt target p ->
  AimsAtParked target (fst (fst (advance p its))).
Proof.
  intros Ha; revert its; induction Ha; intros its;
    cbn [advance fst snd AimsAtParked]; auto.
  - specialize (IHHa (applyUpdate (MarkAnalyzing target) its)).
    destruct (advance k _) as [[s its'] effs]; exact IHHa.
  - specialize (IHHa (applyUpdate (MarkSuccess target d) its)).
    destruct (advance k _) as [[s its'] effs]; exact IHHa.
  - specialize (IHHa (applyUpdate (MarkError target) its)).
    destruct (advance k _) as [[s its'] effs]; exact IHHa.
  - specialize (IHHa its).
    destruct (advance k _) as [[s its'] effs]; exact IHHa.
Qed.

Lemma advance_absent (target : jsstring) (p : Async num unit) (its : list Item) :
  AimsAt target p -> hasId target its = false ->
  snd (fst (advance p its)) = its.
Proof.
  intros Ha Habs; induction Ha; cbn [advance fst snd]; auto.
  - rewrite applyUpdate_absent by exact Habs.
    destruct (advance k its) as [[s its'] effs]; exact IHHa.
  - rewrite applyUpdate_absent by exact Habs.
    destruct (advance k its) as [[s its'] effs]; exact IHHa.
  - rewrite applyUpdate_absent by exact Habs.
    destruct (advance k its) as [[s its'] effs]; exact IHHa.
  - destruct (advance k its) as [[s its'] effs]; exact IHHa.
Qed.

Lemma settle_absent (target : jsstring) (answers : list Answer)
      (s : Suspended num) (its : list Item) :
  AimsAtParked target s -> hasId target its = false ->
  snd (fst (settle s answers its)) = its.
Proof.
  revert s; induction answers as [|a answers IH]; intros s Hs Habs; simpl;
    [reflexivity|].
  destruct (resume s a) as [p|] eqn:Hres; [|apply IH; assumption].
  assert (Hp : AimsAt target p).
  { destruct s, a; simpl in Hres; try discriminate;
      injection Hres as <-; apply Hs. }
  pose proof (advance_aims target p its Hp) as Hparked.
  pose proof (advance_absent target p its Hp Habs) as Hsame.
  destruct (advance p its) as [[s1 its1] effs1]; simpl in *. subst its1.
  specialize (IH s1 Hparked Habs).
  destruct (settle s1 answers its) as [[s2 its2] effs2]; exact IH.
Qed.

(* ------------------------------------------------------------------ *)
(** ** Failure of an extraction *)

Lemma analyzeItem_failure (item : Item) (encoded : option jsstring)
      (reply : Reply) (its : list Item) :
  extractionFails encoded reply = true ->
  fst (runAlone (analyzeItem item) [FileRead encoded; Answered reply] its)
  = (Finished,
     applyUpdate (MarkError (id item))
       (applyUpdate (MarkAnalyzing (id item)) its)).
Proof.
  unfold extractionFails, runAlone, analyzeItem, fileToBase64, analyzeInvoiceImage.
  intros Hfail. cbn [advance bind settle resume].
  destruct encoded as [base64|]; cbn [advance bind settle resume fst snd].
  - destruct reply as [|[t|]]; cbn [advance bind settle resume fst snd];
      try reflexivity.
    destruct (truthy t); cbn [advance bind settle resume fst snd negb orb] in *;
      try reflexivity.
    destruct (JSON_parse t); [discriminate|].
    reflexivity.
  - reflexivity.
Qed.

Lemma failure_on_item (target : jsstring) (its : list Item) (n : nat) (i : Item) :
  nth_error its n = Some i ->
  nth_error (applyUpdate (MarkError target) (applyUpdate (MarkAnalyzing target) its)) n
  = Some (if str_eqb (id i) target then markedError i else i).
Proof.
  intros Hn. cbn [applyUpdate]. rewrite map_map, nth_error_map, Hn.
  cbn [option_map]. destruct (str_eqb (id i) target) eqn:E; cbn [id].
  - rewrite E. reflexivity.
  - rewrite E. reflexivity.
Qed.

(** C5. When an extraction fails, because the file cannot be read, the
    request is rejected, the response carries no text or an empty text, or
    the text does not parse, the call of [analyzeItem] is over after the
    answer and the item it was started for has status [ERROR] and a
    non-empty error message, while its identity, file, preview reference and
    previously stored result are what they were before the call; items with
    another id are untouched. *)
Theorem failed_extraction_marks_error_only
        (item : Item) (encoded : option jsstring) (reply : Reply)
        (its : list Item) :
  extractionFails encoded reply = true ->
  let outcome := runAlone (analyzeItem item) [FileRead encoded; Answered reply] its in
  fst (fst outcome) = Finished /\
  forall (n : nat) (before : Item),
    nth_error its n = Some before ->
    exists after : Item,
      nth_error (snd (fst outcome)) n = Some after /\
      (id before <> id item -> after = before) /\
      (id before = id item ->
         status after = ERROR /\
         (exists message, error after = Some message /\ message <> []) /\
         id after = id before /\ file after = file before /\
         previewUrl after = previewUrl before /\
         result after = result before).
Proof.
  intros Hfail outcome. subst outcome.
  pose proof (analyzeItem_failure item encoded reply its Hfail) as Hrun.
  destruct (runAlone _ _ _) as [[s its'] effs]; cbn [fst snd] in *.
  injection Hrun as -> ->. split; [reflexivity|].
  intros n before Hn.
  eexists; split; [apply failure_on_item; exact Hn|]. split.
  - intros Hne. apply str_eqb_neq in Hne. rewrite Hne. reflexivity.
  - intros He. apply str_eqb_eq in He. rewrite He. cbn.
    repeat split; try reflexivity.
    exists FAILURE_MESSAGE. split; [reflexivity | discriminate].
Qed.

(* ------------------------------------------------------------------ *)
(** ** Completion for a removed item *)

(** C6. Once the store holds no item with the id an extraction was started
    for, neither completion update changes the collection, and whatever the
    environment still answers to that call of [analyzeItem], wherever it is
    parked, the collection stays exactly as it is: the item is not created
    again and no other item is modified. *)
Theorem completion_for_removed_item_is_noop
        (item : Item) (started : list Item) (its : list Item)
        (answers : list Answer) :
  hasId (id item) its = false ->
  (forall extracted, applyUpdate (MarkSuccess (id item) extracted) its = its) /\
  applyUpdate (MarkError (id item)) its = its /\
  snd (fst (settle (fst (fst (advance (analyzeItem item) started))) answers its))
  = its.
Proof.
  intros Habs. split; [|split].
  - intros extracted. apply applyUpdate_absent. exact Habs.
  - apply applyUpdate_absent. exact Habs.
  - apply settle_absent with (target := id item); [|exact Habs].
    apply advance_aims. apply analyzeItem_aims.
Qed.

(* ------------------------------------------------------------------ *)
(** ** Export without an exportable document *)

Lemma filter_nil_iff {X : Type} (p : X -> bool) (l : list X) :
  filter p l = [] <-> forall x, In x l -> p x = false.
Proof.
  induction l as [|y l IH]; simpl.
  - split; [intros _ x [] | reflexivity].
  - destruct (p y) eqn:E; split.
    + discriminate.
    + intros Hall. specialize (Hall y (or_introl eq_refl)). congruence.
    + intros Hnil x [<- | Hx]; [exact E | apply IH; assumption].
    + intros Hall. apply IH. intros x Hx. apply Hall. auto.
Qed.

(** C7. If no document has status [SUCCESS] together with extracted data,
    the export handler returns early: no file is offered for download, and
    the store, the running extractions and the log of the session are what
    they were. *)
Theorem export_without_success_is_noop (isoNow : jsstring) (w : World num) :
  (forall i, In i (sessionItems (store w)) ->
             ~ (status i = SUCCESS /\ result i <> None)) ->
  handleExportCSV isoNow (store w) = None /\
  fire (ExportCSV isoNow) w = w /\
  step w (ExportCSV isoNow) = w.
Proof.
  intros Hnone.
  assert (Hexp : handleExportCSV isoNow (store w) = None).
  { unfold handleExportCSV.
    replace (filter isExportable (sessionItems (store w))) with (@nil Item);
      [reflexivity|].
    symmetry. apply filter_nil_iff. intros i Hi. unfold isExportable.
    destruct (status i) eqn:Es; try reflexivity.
    destruct (result i) eqn:Er; [|reflexivity].
    exfalso. apply (Hnone i Hi). rewrite Er. split; [exact Es | discriminate]. }
  split; [exact Hexp|].
  assert (Hfire : fire (ExportCSV isoNow) w = w).
  { unfold fire. rewrite Hexp. reflexivity. }
  split; [exact Hfire|].
  unfold step. destruct (enabled w (ExportCSV isoNow)); [exact Hfire | reflexivity].
Qed.

(* ------------------------------------------------------------------ *)
(** ** Removal *)

Lemma find_unique (wanted : jsstring) (l1 l2 : list Item) (x : Item) :
  id x = wanted ->
  (forall i, In i l1 -> id i <> wanted) ->
  find (fun i => str_eqb (id i) wanted) (l1 ++ x :: l2) = Some x.
Proof.
  intros Hx Hl1. induction l1 as [|y l1 IH]; simpl.
  - rewrite (proj2 (str_eqb_eq _ _) Hx). reflexivity.
  - rewrite (proj2 (str_eqb_neq _ _) (Hl1 y (or_introl eq_refl))).
    apply IH. intros i Hi. apply Hl1. right; exact Hi.
Qed.

Lemma filter_keep (wanted : jsstring) (l : list Item) :
  (forall i, In i l -> id i <> wanted) ->
  filter (fun i => negb (str_eqb (id i) wanted)) l = l.
Proof.
  intros Hl. induction l as [|y l IH]; simpl; [reflexivity|].
  rewrite (proj2 (str_eqb_neq _ _) (Hl y (or_introl eq_refl))). simpl.
  f_equal. apply IH. intros i Hi. apply Hl. right; exact Hi.
Qed.

(** C9. Removing by id the one item of the collection that carries this id
    yields the collection without that item, the others in their order; the
    preview reference of the removed item, and nothing else, is released;
    and if the removed item was the active selection, the first remaining
    item becomes the selection, or none when nothing remains; otherwise the
    selection is kept. *)
Theorem remove_deletes_releases_and_reselects
        (l1 l2 : list Item) (x : Item) (active : option jsstring) :
  (forall i, In i (l1 ++ l2) -> id i <> id x) ->
  handleRemoveItem (id x) {| sessionItems := l1 ++ x :: l2; activeItemId := active |}
  = ({| sessionItems := l1 ++ l2;
        activeItemId :=
          match active with
          | Some a =>
              if str_eqb a (id x)
              then match l1 ++ l2 with
                   | first :: _ => Some (id first)
                   | [] => None
                   end
              else Some a
          | None => None
          end |},
     [previewUrl x]).
Proof.
  intros Hothers. unfold handleRemoveItem, isActiveId. cbn [sessionItems activeItemId].
  assert (H1 : forall i, In i l1 -> id i <> id x)
    by (intros i Hi; apply Hothers, in_or_app; left; exact Hi).
  assert (H2 : forall i, In i l2 -> id i <> id x)
    by (intros i Hi; apply Hothers, in_or_app; right; exact Hi).
  rewrite (find_unique (id x) l1 l2 x eq_refl H1).
  rewrite filter_app. cbn [filter]. rewrite str_eqb_refl. cbn [negb].
  rewrite (filter_keep (id x) l1 H1), (filter_keep (id x) l2 H2).
  destruct active as [a|]; reflexivity.
Qed.

(* ------------------------------------------------------------------ *)
(** ** Inputs without a data-URI header *)

Lemma stripPrefix_Some (p s rest : jsstring) :
  stripPrefix p s = Some rest -> s = p ++ rest.
Proof.
  revert s; induction p as [|x p IH]; intros [|y s]; simpl; intros E;
    try discriminate; try (injection E as <-; reflexivity).
  destruct (N.eqb_spec x y) as [->|]; [|discriminate].
  rewrite (IH s E). reflexivity.
Qed.

Lemma lazyUntilBase64_Some (s group rest : jsstring) :
  lazyUntilBase64 s = Some (group, rest) ->
  s = group ++ str ";base64," ++ rest.
Proof.
  revert group rest; induction s as [|c s IH]; intros group rest.
  - cbn. discriminate.
  - cbn [lazyUntilBase64].
    destruct (stripPrefix (str ";base64,") (c :: s)) as [r|] eqn:Ep.
    + intros E; injection E as <- <-. apply stripPrefix_Some in Ep. exact Ep.
    + destruct (isLineTerminator c); [discriminate|].
      destruct (lazyUntilBase64 s) as [[g r]|]; [|discriminate].
      intros E; injection E as <- <-. rewrite (IH g r eq_refl). reflexivity.
Qed.

Lemma execDataHeader_Some (s group rest : jsstring) :
  execDataHeader s = Some (group, rest) ->
  s = str "data:" ++ group ++ str ";base64," ++ rest.
Proof.
  unfold execDataHeader.
  destruct (stripPrefix (str "data:") s) as [s'|] eqn:Ep; [|discriminate].
  intros E. apply lazyUntilBase64_Some in E. apply stripPrefix_Some in Ep.
  rewrite Ep, E. reflexivity.
Qed.

(** C10. For an input that does not start with a header [data:], a declared
    type, [;base64,], the one request of the extraction client carries the
    whole input, unmodified, as payload, with the declared content type
    [image/jpeg]. *)
Theorem headerless_input_is_sent_whole (base64Data : jsstring) :
  (forall declared payload,
     base64Data <> str "data:" ++ declared ++ str ";base64," ++ payload) ->
  inlineData (buildRequest base64Data)
  = {| mimeType := str "image/jpeg"; data := base64Data |} /\
  exists k, analyzeInvoiceImage base64Data
            = AwaitGenerate (buildRequest base64Data) k.
Proof.
  intros Hno. split.
  - unfold buildRequest. cbn [inlineData].
    destruct (execDataHeader base64Data) as [[group rest]|] eqn:E;
      [|reflexivity].
    exfalso. apply (Hno group rest). apply execDataHeader_Some. exact E.
  - unfold analyzeInvoiceImage. eexists. reflexivity.
Qed.

(* ------------------------------------------------------------------ *)
(** ** The exported CSV *)

Lemma orEmpty_same (s : jsstring) : orEmpty s = s.
Proof. destruct s; reflexivity. Qed.






Lemma csvRow_cells (item : Item) (extracted : InvoiceData num) :
  csvRow item extracted
  = [ quoted (doubleQuotes (name (file item)));
      quoted (invoiceDate extracted);
      quoted (invoiceNumber extracted);
      quoted (poNumber extracted);
      quoted (quotationNumber extracted);
      quoted (currency extracted);
      quoted (itemsSummary extracted);
      numToString (totalAmount extracted) ].
Proof. unfold csvRow. rewrite !orEmpty_same. reflexivity. Qed.


(** C1, on the code.  The row of a document carries its file name with every
    double quote doubled and its items text with the quotes of descriptions
    replaced, but the five text fields of the invoice are written between
    quotes as they are: an invoice number that contains a double quote is
    exported with that quote undoubled. *)
Theorem export_leaves_quotes_of_invoice_fields_undoubled :
  (forall (item : Item) (extracted : InvoiceData num),
     firstn 6 (csvRow item extracted)
     = [ quoted (doubleQuotes (name (file item)));
         quoted (invoiceDate extracted);
         quoted (invoiceNumber extracted);
         quoted (poNumber extracted);
         quoted (quotationNumber extracted);
         quoted (currency extracted) ]) /\
  nth_error (csvRow quotedItem quotedInvoice) 0
  = Some (quoted (str "scan" ++ [QUOTE; QUOTE] ++ str "1.png")) /\
  nth_error (csvRow quotedItem quotedInvoice) 2
  = Some (quoted (str "INV" ++ [QUOTE] ++ str "7")) /\
  nth_error (csvRow quotedItem quotedInvoice) 2
  <> Some (quoted (str "INV" ++ [QUOTE; QUOTE] ++ str "7")) /\
  nth_error (csvRow quotedItem quotedInvoice) 6
  = Some (quoted (str "3' pipe (Qty: 1, Unit: 40, Total: 40)")).
Proof.
  split; [intros; rewrite csvRow_cells; reflexivity|].
  repeat split; try (vm_compute; reflexivity).
  vm_compute. discriminate.
Qed.

(* ------------------------------------------------------------------ *)
(** ** The shape of a run of [analyzeItem] and of the batch loop *)

Lemma analyzeItem_unfold (item : Item) :
  analyzeItem item
  = SetItems (MarkAnalyzing (id item)) (AwaitFile (file item) (afterRead item)).
Proof. reflexivity. Qed.

Lemma settle_Finished (answers : list Answer) (its : list Item) :
  settle (@Finished num) answers its = (Finished, its, []).
Proof. induction answers as [|a answers IH]; simpl; [reflexivity | exact IH]. Qed.

Lemma settle_cons (s : Suspended num) (a : Answer) (answers : list Answer)
      (its : list Item) :
  settle s (a :: answers) its
  = match resume s a with
    | Some p => runAlone p answers its
    | None => settle s answers its
    end.
Proof. reflexivity. Qed.

Lemma runAlone_effects (p : Async num unit) (answers : list Answer) (its : list Item) :
  snd (runAlone p answers its)
  = snd (advance p its)
      ++ snd (settle (fst (fst (advance p its))) answers (snd (fst (advance p its)))).
Proof.
  unfold runAlone. destruct (advance p its) as [[s1 its1] effs1]. cbn [fst snd].
  destruct (settle s1 answers its1) as [[s2 its2] effs2]. reflexivity.
Qed.

Lemma advance_SetItems (u : Update num) (k : Async num unit) (its : list Item) :
  advance (SetItems u k) its
  = (fst (fst (advance k (applyUpdate u its))),
     snd (fst (advance k (applyUpdate u its))),
     DidSetItems u :: snd (advance k (applyUpdate u its))).
Proof.
  cbn [advance]. destruct (advance k (applyUpdate u its)) as [[s its'] effs].
  reflexivity.
Qed.

Lemma advance_ConsoleError (k : Async num unit) (its : list Item) :
  advance (ConsoleError k) its
  = (fst (fst (advance k its)), snd (fst (advance k its)),
     DidConsoleError :: snd (advance k its)).
Proof.
  cbn [advance]. destruct (advance k its) as [[s its'] effs]. reflexivity.
Qed.

Lemma runAlone_SetItems (u : Update num) (k : Async num unit)
      (answers : list Answer) (its : list Item) :
  snd (runAlone (SetItems u k) answers its)
  = DidSetItems u :: snd (runAlone k answers (applyUpdate u its)).
Proof.
  rewrite !runAlone_effects, advance_SetItems. reflexivity.
Qed.

Lemma runAlone_ConsoleError (k : Async num unit) (answers : list Answer)
      (its : list Item) :
  snd (runAlone (ConsoleError k) answers its)
  = DidConsoleError :: snd (runAlone k answers its).
Proof.
  rewrite !runAlone_effects, advance_ConsoleError. reflexivity.
Qed.

Lemma runAlone_AwaitFile (f : File) (k : option jsstring -> Async num unit)
      (answers : list Answer) (its : list Item) :
  snd (runAlone (AwaitFile f k) answers its)
  = DidReadFile f :: snd (settle (AwaitingFile f k) answers its).
Proof. rewrite runAlone_effects. reflexivity. Qed.

Lemma runAlone_AwaitGenerate (r : Request) (k : Reply -> Async num unit)
      (answers : list Answer) (its : list Item) :
  snd (runAlone (AwaitGenerate r k) answers its)
  = DidRequest r :: snd (settle (AwaitingReply r k) answers its).
Proof. rewrite runAlone_effects. reflexivity. Qed.

Lemma runAlone_Ret (answers : list Answer) (its : list Item) :
  snd (runAlone (@Ret num unit tt) answers its) = [].
Proof.
  rewrite runAlone_effects. cbn [advance fst snd].
  rewrite settle_Finished. reflexivity.
Qed.

Lemma settle_nil (s : Suspended num) (its : list Item) :
  settle s [] its = (s, its, []).
Proof. reflexivity. Qed.

(** What follows the first update of [analyzeItem] ends with one final
    update of the item, on every path. *)
Lemma afterRead_completes (item : Item) :
  Completes (id item) (AwaitFile (file item) (afterRead item)).
Proof.
  constructor. intros [base64|]; cbn [afterRead].
  - unfold analyzeInvoiceImage. cbn [bind]. constructor.
    intros [|[t|]]; cbn [bind]; unfold afterExtract, onCatch.
    + repeat constructor.
    + destruct (truthy t); cbn [bind]; [|repeat constructor].
      destruct (JSON_parse t); cbn [bind]; repeat constructor.
    + repeat constructor.
  - unfold onCatch. repeat constructor.
Qed.

(** Sequencing: if [m] completes the document in progress and what follows
    behaves sequentially from the idle state, so does [m] followed by it. *)
Lemma Sequential_bind (target : jsstring) (ids : list jsstring)
      (m : Async num unit) (f : unit -> Async num unit) :
  Completes target m ->
  (forall answers its, Sequential ids None (snd (runAlone (f tt) answers its))) ->
  forall answers its,
    Sequential ids (Some target) (snd (runAlone (bind m f) answers its)).
Proof.
  intros Hm Hf. induction Hm as [u Hu | k _ IH | fl k _ IH | r k _ IH];
    intros answers its; cbn [bind].
  - rewrite runAlone_SetItems.
    destruct u as [t | t d | t]; cbn [isFinalFor] in Hu; [contradiction | |];
      subst t; cbn [Sequential]; (split; [reflexivity | apply Hf]).
  - rewrite runAlone_ConsoleError. cbn [Sequential]. apply IH.
  - rewrite runAlone_AwaitFile. cbn [Sequential].
    revert its. induction answers as [|a answers IHa]; intros its.
    + rewrite settle_nil. exact I.
    + rewrite settle_cons. destruct a as [dataUrl | reply]; cbn [resume].
      * apply IH.
      * apply IHa.
  - rewrite runAlone_AwaitGenerate. cbn [Sequential].
    split; [discriminate|].
    revert its. induction answers as [|a answers IHa]; intros its.
    + rewrite settle_nil. exact I.
    + rewrite settle_cons. destruct a as [dataUrl | reply]; cbn [resume].
      * apply IHa.
      * apply IH.
Qed.

(** The batch loop is sequential over the documents it was given. *)
Lemma loop_Sequential (rest : list Item) (answers : list Answer) (its : list Item) :
  Sequential (map id rest) None (snd (runAlone (forOf rest analyzeItem) answers its)).
Proof.
  revert answers its. induction rest as [|item rest IH]; intros answers its.
  - cbn [forOf]. rewrite runAlone_Ret. exact I.
  - cbn [forOf]. rewrite analyzeItem_unfold. cbn [bind].
    rewrite runAlone_SetItems. cbn [Sequential map]. split; [reflexivity|].
    apply (Sequential_bind (id item) (map id rest)
             (AwaitFile (file item) (afterRead item))
             (fun _ => forOf rest analyzeItem)).
    + apply afterRead_completes.
    + exact IH.
Qed.

Lemma startTargets_app (a b : list (Effect num)) :
  startTargets (a ++ b) = startTargets a ++ startTargets b.
Proof.
  induction a as [|e a IH]; [reflexivity|].
  destruct e as [[t | t d | t] | | f | r]; cbn [app startTargets];
    rewrite IH; reflexivity.
Qed.

Lemma finalTargets_app (a b : list (Effect num)) :
  finalTargets (a ++ b) = finalTargets a ++ finalTargets b.
Proof.
  induction a as [|e a IH]; [reflexivity|].
  destruct e as [[t | t d | t] | | f | r]; cbn [app finalTargets];
    rewrite IH; reflexivity.
Qed.

Lemma firstn_length_app {X : Type} (a b : list X) :
  firstn (length a) (a ++ b) = a.
Proof. induction a as [|x a IH]; simpl; [reflexivity | rewrite IH; reflexivity]. Qed.

Lemma firstn_snoc {X : Type} (a : list X) (x : X) (b : list X) :
  firstn (S (length a)) (a ++ x :: b) = a ++ [x].
Proof.
  induction a as [|y a IH]; [reflexivity|].
  change (y :: firstn (S (length a)) (a ++ x :: b) = y :: (a ++ [x])).
  rewrite IH. reflexivity.
Qed.

(** From the discipline to the statement about requests.  [started] and
    [settled] are the documents started and settled before the trace. *)
Lemma Sequential_requests (all : list jsstring) (tr : list (Effect num)) :
  forall (started settled ids : list jsstring) (busy : option jsstring),
    Sequential ids busy tr ->
    all = started ++ ids ->
    match busy with
    | None => started = settled
    | Some t => started = settled ++ [t]
    end ->
    forall l1 r l2,
      tr = l1 ++ DidRequest r :: l2 ->
      exists j, j < length all /\
                started ++ startTargets l1 = firstn (S j) all /\
                settled ++ finalTargets l1 = firstn j all.
Proof.
  induction tr as [|e tr IH]; intros started settled ids busy Hseq Hall Hbusy l1 r l2 Hsplit.
  - destruct l1; discriminate.
  - destruct l1 as [|e' l1].
    + cbn [app] in Hsplit. injection Hsplit as -> ->.
      cbn [Sequential] in Hseq. destruct Hseq as [Hb _].
      destruct busy as [t|]; [|contradiction]. subst started all.
      exists (length settled). cbn [startTargets finalTargets].
      rewrite !app_nil_r, <- !app_assoc. cbn [app].
      rewrite firstn_snoc, firstn_length_app. repeat split; try reflexivity.
      rewrite !length_app. simpl. lia.
    + cbn [app] in Hsplit. injection Hsplit as <- Hsplit.
      destruct e as [[t | t d | t] | | f | r'];
        cbn [Sequential startTargets finalTargets] in *.
      * destruct busy as [b|]; [contradiction|].
        destruct ids as [|next later]; [contradiction|].
        destruct Hseq as [-> Hseq]. subst settled.
        destruct (IH (started ++ [next]) started later (Some next) Hseq)
          with (l1 := l1) (r := r) (l2 := l2) as [j [Hj [Hs Hf]]];
          [rewrite <- app_assoc; exact Hall | reflexivity | exact Hsplit |].
        exists j. rewrite <- app_assoc in Hs. auto.
      * destruct Hseq as [-> Hseq]. subst started.
        destruct (IH (settled ++ [t]) (settled ++ [t]) ids None Hseq)
          with (l1 := l1) (r := r) (l2 := l2) as [j [Hj [Hs Hf]]];
          [exact Hall | reflexivity | exact Hsplit |].
        exists j. rewrite <- app_assoc in Hf. auto.
      * destruct Hseq as [-> Hseq]. subst started.
        destruct (IH (settled ++ [t]) (settled ++ [t]) ids None Hseq)
          with (l1 := l1) (r := r) (l2 := l2) as [j [Hj [Hs Hf]]];
          [exact Hall | reflexivity | exact Hsplit |].
        exists j. rewrite <- app_assoc in Hf. auto.
      * apply (IH started settled ids busy Hseq Hall Hbusy l1 r l2 Hsplit).
      * apply (IH started settled ids busy Hseq Hall Hbusy l1 r l2 Hsplit).
      * destruct Hseq as [_ Hseq].
        apply (IH started settled ids busy Hseq Hall Hbusy l1 r l2 Hsplit).
Qed.

(** The documents started by a sequential trace are the first of the list,
    in order. *)
Lemma Sequential_starts (tr : list (Effect num)) :
  forall (ids : list jsstring) (busy : option jsstring),
    Sequential ids busy tr ->
    exists k, k <= length ids /\ startTargets tr = firstn k ids.
Proof.
  induction tr as [|e tr IH]; intros ids busy Hseq.
  - exists 0. split; [lia | reflexivity].
  - destruct e as [[t | t d | t] | | f | r];
      cbn [Sequential startTargets] in *.
    + destruct busy as [b|]; [contradiction|].
      destruct ids as [|next later]; [contradiction|].
      destruct Hseq as [-> Hseq].
      destruct (IH later (Some next) Hseq) as [k [Hk Hs]].
      exists (S k). cbn [firstn length]. rewrite Hs. split; [lia | reflexivity].
    + destruct Hseq as [_ Hseq]. apply (IH ids None Hseq).
    + destruct Hseq as [_ Hseq]. apply (IH ids None Hseq).
    + apply (IH ids busy Hseq).
    + apply (IH ids busy Hseq).
    + destruct Hseq as [_ Hseq]. apply (IH ids busy Hseq).
Qed.

(* ------------------------------------------------------------------ *)
(** ** One computation inside a session *)

(** What a computation does and where it parks does not depend on the
    store. *)
Lemma advance_store_independent (p : Async num unit) (its1 its2 : list Item) :
  fst (fst (advance p its1)) = fst (fst (advance p its2)) /\
  snd (advance p its1) = snd (advance p its2).
Proof.
  revert its1 its2.
  induction p as [a | u k IH | k IH | f k IH | r k IH]; intros its1 its2;
    try (split; reflexivity).
  - rewrite !advance_SetItems. cbn [fst snd].
    destruct (IH (applyUpdate u its1) (applyUpdate u its2)) as [E1 E2].
    rewrite E1, E2. split; reflexivity.
  - rewrite !advance_ConsoleError. cbn [fst snd].
    destruct (IH its1 its2) as [E1 E2]. rewrite E1, E2. split; reflexivity.
Qed.

Lemma flowEffects_app (n : nat) (a b : list (Entry num)) :
  flowEffects n (a ++ b) = flowEffects n a ++ flowEffects n b.
Proof.
  induction a as [|e a IH]; [reflexivity|].
  destruct e as [m eff | url | d]; cbn [app flowEffects]; try exact IH.
  destruct (Nat.eqb m n); [rewrite IH; reflexivity | exact IH].
Qed.

Lemma flowEffects_own (n : nat) (effs : list (Effect num)) :
  flowEffects n (map (ByFlow n) effs) = effs.
Proof.
  induction effs as [|e effs IH]; [reflexivity|].
  cbn [map flowEffects]. rewrite Nat.eqb_refl, IH. reflexivity.
Qed.

Lemma flowEffects_other (n m : nat) (effs : list (Effect num)) :
  m <> n -> flowEffects n (map (ByFlow m) effs) = [].
Proof.
  intros Hne. induction effs as [|e effs IH]; [reflexivity|].
  cbn [map flowEffects]. rewrite (proj2 (Nat.eqb_neq m n) Hne). exact IH.
Qed.

Lemma flowEffects_revoked (n : nat) (urls : list jsstring) :
  flowEffects n (map (@Revoked num) urls) = [].
Proof. induction urls as [|u urls IH]; [reflexivity | exact IH]. Qed.

Lemma nth_error_setNth_same {X : Type} (l : list X) (n : nat) (x y : X) :
  nth_error l n = Some y -> nth_error (setNth n x l) n = Some x.
Proof.
  revert n; induction l as [|z l IH]; intros [|n]; simpl; try discriminate.
  - reflexivity.
  - apply IH.
Qed.

Lemma nth_error_setNth_other {X : Type} (l : list X) (n m : nat) (x : X) :
  m <> n -> nth_error (setNth m x l) n = nth_error l n.
Proof.
  revert n m; induction l as [|z l IH]; intros [|n] [|m] Hne; simpl;
    try reflexivity; try congruence.
  apply IH. congruence.
Qed.

(** An action that is not a delivery to computation [n] leaves it parked
    where it is and adds nothing of its own to the log. *)
Lemma step_elsewhere (w : World num) (a : Action num) (n : nat) (s : Suspended num) :
  nth_error (flows w) n = Some s ->
  (forall ans, a <> Deliver n ans) ->
  exists added,
    log (step w a) = log w ++ added /\
    flowEffects n added = [] /\
    nth_error (flows (step w a)) n = Some s.
Proof.
  intros Hn Hother. unfold step.
  assert (Hstay : exists added, log w = log w ++ added /\
                    flowEffects n added = [] /\ nth_error (flows w) n = Some s)
    by (exists []; rewrite app_nil_r; auto).
  assert (Hlt : n < length (flows w))
    by (apply nth_error_Some; rewrite Hn; discriminate).
  assert (Hspawn : forall p, exists added,
             log (spawn p w) = log w ++ added /\
             flowEffects n added = [] /\
             nth_error (flows (spawn p w)) n = Some s).
  { intros p. unfold spawn.
    destruct (advance p (sessionItems (store w))) as [[s' its] effs].
    cbn [log flows]. eexists; split; [reflexivity|]. split.
    - apply flowEffects_other. lia.
    - rewrite nth_error_app1 by exact Hlt. exact Hn. }
  destruct (enabled w a); [|exact Hstay].
  destruct a as [files | wanted | | | wanted | newData | isoNow | m ans];
    cbn [fire]; try exact Hstay; try apply Hspawn.
  - destruct (handleRemoveItem wanted (store w)) as [s' revoked].
    cbn [log flows]. eexists; split; [reflexivity|]. split;
      [apply flowEffects_revoked | exact Hn].
  - destruct (handleExportCSV isoNow (store w)) as [d|]; [|exact Hstay].
    cbn [log flows]. eexists; split; [reflexivity|]. split;
      [reflexivity | exact Hn].
  - assert (Hm : m <> n) by (intros ->; apply (Hother ans); reflexivity).
    unfold deliver. destruct (nth_error (flows w) m) as [sm|]; [|exact Hstay].
    destruct (resume sm ans) as [p|]; [|exact Hstay].
    destruct (advance p (sessionItems (store w))) as [[s' its] effs].
    cbn [log flows]. eexists; split; [reflexivity|]. split.
    + apply flowEffects_other. exact Hm.
    + rewrite nth_error_setNth_other by exact Hm. exact Hn.
Qed.

(** A delivery to computation [n] resumes it, if the answer is the one it
    waits for, and runs it to its next [await]. *)
Lemma step_deliver (w : World num) (n : nat) (ans : Answer) (s : Suspended num) :
  nth_error (flows w) n = Some s ->
  exists added,
    log (step w (Deliver n ans)) = log w ++ added /\
    match resume s ans with
    | Some p =>
        flowEffects n added = snd (advance p (sessionItems (store w))) /\
        nth_error (flows (step w (Deliver n ans))) n
        = Some (fst (fst (advance p (sessionItems (store w)))))
    | None =>
        flowEffects n added = [] /\
        nth_error (flows (step w (Deliver n ans))) n = Some s
    end.
Proof.
  intros Hn. unfold step. cbn [enabled fire]. unfold deliver. rewrite Hn.
  destruct (resume s ans) as [p|].
  - destruct (advance p (sessionItems (store w))) as [[s' its] effs].
    cbn [log flows fst snd]. eexists; split; [reflexivity|]. split.
    + apply flowEffects_own.
    + apply (nth_error_setNth_same _ _ _ _ Hn).
  - exists []. rewrite app_nil_r. auto.
Qed.

(** In any session, computation [n] does exactly what it does on its own
    when fed the answers that the session delivers to it. *)
Lemma flow_in_session (actions : list (Action num)) :
  forall (w : World num) (n : nat) (s : Suspended num) (its : list Item),
    nth_error (flows w) n = Some s ->
    exists added,
      log (fold_left step actions w) = log w ++ added /\
      flowEffects n added = snd (settle s (answersTo n actions) its) /\
      nth_error (flows (fold_left step actions w)) n
      = Some (fst (fst (settle s (answersTo n actions) its))).
Proof.
  induction actions as [|a actions IH]; intros w n s its Hn.
  - exists []. cbn. rewrite app_nil_r. auto.
  - cbn [fold_left].
    assert (Hcases : (exists ans, a = Deliver n ans) \/ forall ans, a <> Deliver n ans).
    { destruct a as [ | | | | | | | m ans];
        try (right; intros ans'; discriminate).
      destruct (Nat.eq_dec m n) as [->|Hne].
      - left. exists ans. reflexivity.
      - right. intros ans' E. injection E as E _. contradiction. }
    destruct Hcases as [[ans ->] | Hother].
    + cbn [answersTo]. rewrite Nat.eqb_refl, settle_cons.
      destruct (step_deliver w n ans s Hn) as [added1 [Hlog1 Hres]].
      destruct (resume s ans) as [p|].
      * destruct Hres as [Heff1 Hflow1].
        destruct (IH _ n _ (snd (fst (advance p its))) Hflow1)
          as [added2 [Hlog2 [Heff2 Hflow2]]].
        exists (added1 ++ added2). rewrite Hlog2, Hlog1, app_assoc.
        split; [reflexivity|].
        destruct (advance_store_independent p (sessionItems (store w)) its)
          as [Es Ee].
        rewrite Es in Heff2, Hflow2.
        rewrite flowEffects_app, Heff1, Heff2, Hflow2, Ee.
        unfold runAlone. destruct (advance p its) as [[s1 its1] effs1].
        cbn [fst snd].
        destruct (settle s1 (answersTo n actions) its1) as [[s2 its2] effs2].
        split; reflexivity.
      * destruct Hres as [Heff1 Hflow1].
        destruct (IH _ n s its Hflow1) as [added2 [Hlog2 [Heff2 Hflow2]]].
        exists (added1 ++ added2). rewrite Hlog2, Hlog1, app_assoc.
        split; [reflexivity|].
        rewrite flowEffects_app, Heff1, Heff2, Hflow2. split; reflexivity.
    + destruct (step_elsewhere w a n s Hn Hother) as [added1 [Hlog1 [Heff1 Hflow1]]].
      destruct (IH _ n s its Hflow1) as [added2 [Hlog2 [Heff2 Hflow2]]].
      exists (added1 ++ added2). rewrite Hlog2, Hlog1, app_assoc.
      split; [reflexivity|].
      rewrite flowEffects_app, Heff1, Heff2, Hflow2.
      replace (answersTo n (a :: actions)) with (answersTo n actions).
      * split; reflexivity.
      * destruct a as [ | | | | | | | m ans]; try reflexivity.
        cbn [answersTo]. destruct (Nat.eqb_spec m n) as [->|]; [|reflexivity].
        exfalso. apply (Hother ans). reflexivity.
Qed.

(* ------------------------------------------------------------------ *)
(** ** A batch whose answers all arrive *)

Lemma andThen_andThen (a b : list (Effect num))
      (x : Suspended num * list Item * list (Effect num)) :
  andThen a (andThen b x) = andThen (a ++ b) x.
Proof. unfold andThen. cbn [fst snd]. rewrite app_assoc. reflexivity. Qed.

Lemma runAlone_SetItems_full (u : Update num) (k : Async num unit)
      (answers : list Answer) (its : list Item) :
  runAlone (SetItems u k) answers its
  = andThen [DidSetItems u] (runAlone k answers (applyUpdate u its)).
Proof.
  unfold runAlone, andThen. cbn [advance].
  destruct (advance k (applyUpdate u its)) as [[s1 its1] effs1].
  destruct (settle s1 answers its1) as [[s2 its2] effs2]. reflexivity.
Qed.

Lemma runAlone_ConsoleError_full (k : Async num unit) (answers : list Answer)
      (its : list Item) :
  runAlone (ConsoleError k) answers its
  = andThen [DidConsoleError] (runAlone k answers its).
Proof.
  unfold runAlone, andThen. cbn [advance].
  destruct (advance k its) as [[s1 its1] effs1].
  destruct (settle s1 answers its1) as [[s2 its2] effs2]. reflexivity.
Qed.

Lemma runAlone_AwaitFile_full (f : File) (k : option jsstring -> Async num unit)
      (r : option jsstring) (answers : list Answer) (its : list Item) :
  runAlone (AwaitFile f k) (FileRead r :: answers) its
  = andThen [DidReadFile f] (runAlone (k r) answers its).
Proof.
  unfold runAlone at 1. cbn [advance settle resume]. unfold andThen.
  fold (runAlone (k r) answers its).
  destruct (runAlone (k r) answers its) as [[s2 its2] effs2]. reflexivity.
Qed.

Lemma runAlone_AwaitGenerate_full (r : Request) (k : Reply -> Async num unit)
      (reply : Reply) (answers : list Answer) (its : list Item) :
  runAlone (AwaitGenerate r k) (Answered reply :: answers) its
  = andThen [DidRequest r] (runAlone (k reply) answers its).
Proof.
  unfold runAlone at 1. cbn [advance settle resume]. unfold andThen.
  fold (runAlone (k reply) answers its).
  destruct (runAlone (k reply) answers its) as [[s2 its2] effs2]. reflexivity.
Qed.

(** One document of the batch, when its file is read and its request
    answered: a read, a request, possibly logging, one final update, and
    then the rest of the batch. *)
Lemma document_settles (item : Item) (f : unit -> Async num unit)
      (dataUrl : jsstring) (reply : Reply) (answers : list Answer)
      (its : list Item) :
  exists (middle : list (Effect num)) (its' : list Item),
    runAlone (bind (AwaitFile (file item) (afterRead item)) f)
             (FileRead (Some dataUrl) :: Answered reply :: answers) its
    = andThen middle (runAlone (f tt) answers its') /\
    startTargets middle = [] /\ finalTargets middle = [id item].
Proof.
  cbn [bind]. rewrite runAlone_AwaitFile_full. cbn [afterRead].
  unfold analyzeInvoiceImage. cbn [bind].
  rewrite runAlone_AwaitGenerate_full, andThen_andThen.
  assert (Hcatch : forall its0,
            runAlone (bind (ConsoleError (onCatch item)) f) answers its0
            = andThen [DidConsoleError; DidConsoleError;
                       DidSetItems (MarkError (id item))]
                      (runAlone (f tt) answers
                                (applyUpdate (MarkError (id item)) its0))).
  { intros its0. unfold onCatch. cbn [bind].
    rewrite !runAlone_ConsoleError_full, runAlone_SetItems_full, !andThen_andThen.
    reflexivity. }
  destruct reply as [|[t|]]; cbn [bind afterExtract].
  - rewrite Hcatch, andThen_andThen.
    do 2 eexists. split; [reflexivity|]. split; reflexivity.
  - destruct (truthy t); cbn [bind afterExtract].
    + destruct (JSON_parse t); cbn [bind afterExtract].
      * rewrite runAlone_SetItems_full, !andThen_andThen.
        do 2 eexists. split; [reflexivity|]. split; reflexivity.
      * rewrite Hcatch, andThen_andThen.
        do 2 eexists. split; [reflexivity|]. split; reflexivity.
    + rewrite Hcatch, andThen_andThen.
      do 2 eexists. split; [reflexivity|]. split; reflexivity.
  - rewrite Hcatch, andThen_andThen.
    do 2 eexists. split; [reflexivity|]. split; reflexivity.
Qed.

(** With every answer arriving, the batch loop ends, having started and
    settled every document it was given, in order. *)
Lemma loop_completes (dataUrl : jsstring) (reply : Reply) (rest : list Item) :
  forall its,
    let run := runAlone (forOf rest analyzeItem)
                        (steadyAnswers dataUrl reply rest) its in
    fst (fst run) = Finished /\
    startTargets (snd run) = map id rest /\
    finalTargets (snd run) = map id rest.
Proof.
  induction rest as [|item rest IH]; intros its run; subst run.
  - cbn. auto.
  - cbn [forOf steadyAnswers flat_map app]. fold (steadyAnswers dataUrl reply rest).
    rewrite analyzeItem_unfold.
    change (bind (SetItems (MarkAnalyzing (id item))
                    (AwaitFile (file item) (afterRead item)))
                 (fun _ => forOf rest analyzeItem))
      with (SetItems (MarkAnalyzing (id item))
              (bind (AwaitFile (file item) (afterRead item))
                    (fun _ => forOf rest analyzeItem))).
    rewrite runAlone_SetItems_full.
    destruct (document_settles item (fun _ => forOf rest analyzeItem) dataUrl reply
                (steadyAnswers dataUrl reply rest)
                (applyUpdate (MarkAnalyzing (id item)) its))
      as [middle [its' [Hrun [Hs Hf]]]].
    rewrite Hrun, andThen_andThen.
    destruct (IH its') as [Hfin [Hs' Hf']].
    unfold andThen. cbn [fst snd].
    rewrite !startTargets_app, !finalTargets_app, Hs, Hf, Hs', Hf'.
    cbn [map app startTargets finalTargets]. auto.
Qed.

(** A computation started by a handler, followed through the rest of the
    session. *)
Lemma spawned_in_session (p : Async num unit) (w : World num)
      (actions : list (Action num)) (its : list Item) :
  exists added,
    log (fold_left step actions (spawn p w)) = log w ++ added /\
    flowEffects (length (flows w)) added
    = snd (runAlone p (answersTo (length (flows w)) actions) its).
Proof.
  set (n := length (flows w)).
  assert (Hn : nth_error (flows (spawn p w)) n
               = Some (fst (fst (advance p (sessionItems (store w)))))).
  { unfold spawn. destruct (advance p (sessionItems (store w))) as [[s0 its0] effs0].
    cbn [flows fst]. rewrite nth_error_app2 by (unfold n; lia).
    unfold n. rewrite Nat.sub_diag. reflexivity. }
  destruct (flow_in_session actions (spawn p w) n _ (snd (fst (advance p its))) Hn)
    as [added [Hlog [Heff _]]].
  exists (map (ByFlow n) (snd (advance p (sessionItems (store w)))) ++ added).
  split.
  - rewrite Hlog. unfold spawn.
    destruct (advance p (sessionItems (store w))) as [[s0 its0] effs0].
    cbn [log snd]. fold n. rewrite app_assoc. reflexivity.
  - rewrite flowEffects_app, flowEffects_own, Heff, runAlone_effects.
    destruct (advance_store_independent p (sessionItems (store w)) its) as [Es Ee].
    rewrite Es, Ee. reflexivity.
Qed.

Lemma marked_analyzing (target : jsstring) (its : list Item) (n : nat) (before : Item) :
  nth_error its n = Some before ->
  id before = target ->
  exists after,
    nth_error (applyUpdate (MarkAnalyzing target) its) n = Some after /\
    status after = ANALYZING /\ error after = None /\
    id after = id before /\ file after = file before /\
    previewUrl after = previewUrl before /\ result after = result before.
Proof.
  intros Hn Hid. cbn [applyUpdate]. rewrite nth_error_map, Hn. cbn [option_map].
  rewrite (proj2 (str_eqb_eq _ _) Hid).
  eexists. split; [reflexivity|]. cbn. repeat split; reflexivity.
Qed.

(* ------------------------------------------------------------------ *)
(** ** The claims on the orchestrator *)

(** C8. Every run of the single-document flow, whatever the environment
    answers, begins with one store update that sets the status of the item
    to [ANALYZING] and clears its error message at once, leaving its other
    fields alone, also when the item is retried after a failure; the request
    to the endpoint comes after this update.  When the flow is started from
    a handler, the update is applied to the store before the handler returns
    and the request, if one is ever issued in the rest of the session, is
    logged after it. *)
Theorem analysis_first_marks_analyzing
        (item : Item) (w : World num) (later : list (Action num)) :
  (forall answers its,
     exists rest,
       snd (runAlone (analyzeItem item) answers its)
       = DidSetItems (MarkAnalyzing (id item)) :: rest) /\
  (forall (its : list Item) (n : nat) (before : Item),
     nth_error its n = Some before ->
     id before = id item ->
     exists after,
       nth_error (applyUpdate (MarkAnalyzing (id item)) its) n = Some after /\
       status after = ANALYZING /\ error after = None /\
       id after = id before /\ file after = file before /\
       previewUrl after = previewUrl before /\ result after = result before) /\
  sessionItems (store (spawn (analyzeItem item) w))
  = applyUpdate (MarkAnalyzing (id item)) (sessionItems (store w)) /\
  exists added rest,
    log (fold_left step later (spawn (analyzeItem item) w)) = log w ++ added /\
    flowEffects (length (flows w)) added
    = DidSetItems (MarkAnalyzing (id item)) :: rest /\
    forall l1 r l2,
      flowEffects (length (flows w)) added = l1 ++ DidRequest r :: l2 ->
      In (DidSetItems (MarkAnalyzing (id item))) l1.
Proof.
  assert (Hfirst : forall answers its, exists rest,
             snd (runAlone (analyzeItem item) answers its)
             = DidSetItems (MarkAnalyzing (id item)) :: rest).
  { intros answers its. rewrite analyzeItem_unfold, runAlone_SetItems.
    eexists. reflexivity. }
  split; [exact Hfirst|]. split.
  { intros its n before Hn Hid. apply marked_analyzing; assumption. }
  split.
  { unfold spawn. rewrite analyzeItem_unfold. cbn [advance]. reflexivity. }
  destruct (spawned_in_session (analyzeItem item) w later []) as [added [Hlog Heff]].
  destruct (Hfirst (answersTo (length (flows w)) later) []) as [rest Hrest].
  exists added, rest. split; [exact Hlog|]. rewrite Heff, Hrest.
  split; [reflexivity|].
  intros l1 r l2 Hsplit. destruct l1 as [|e l1]; [discriminate|].
  injection Hsplit as <- _. left. reflexivity.
Qed.

(* ------------------------------------------------------------------ *)
(** ** More on the extraction client *)

Lemma stripPrefix_app (p rest : jsstring) : stripPrefix p (p ++ rest) = Some rest.
Proof.
  induction p as [|x p IH]; [destruct rest; reflexivity|].
  cbn [app stripPrefix]. rewrite N.eqb_refl. exact IH.
Qed.

Lemma lazyUntilBase64_onOneLine (s group rest : jsstring) :
  lazyUntilBase64 s = Some (group, rest) -> onOneLine group = true.
Proof.
  revert group rest; induction s as [|c s IH]; intros group rest.
  - cbn. discriminate.
  - cbn [lazyUntilBase64].
    destruct (stripPrefix (str ";base64,") (c :: s)) as [r|].
    + intros E; injection E as <- <-. reflexivity.
    + destruct (isLineTerminator c) eqn:Ec; [discriminate|].
      destruct (lazyUntilBase64 s) as [[g r]|] eqn:Es; [|discriminate].
      intros E; injection E as <- <-. cbn [onOneLine forallb].
      rewrite Ec. cbn [negb andb]. apply (IH g r eq_refl).
Qed.

(** X1. For every input the request either carries the whole input with the
    default type, or the type and payload it carries put back behind
    [data:] and [;base64,] give the input again, and the type then holds no
    line terminator. *)
Theorem request_is_whole_input_or_its_two_parts (base64Data : jsstring) :
  let sent := inlineData (buildRequest base64Data) in
  (mimeType sent = str "image/jpeg" /\ data sent = base64Data) \/
  (base64Data = str "data:" ++ mimeType sent ++ str ";base64," ++ data sent /\
   onOneLine (mimeType sent) = true).
Proof.
  unfold buildRequest. cbn [inlineData mimeType data].
  destruct (execDataHeader base64Data) as [[group rest]|] eqn:E.
  - right. split; [apply execDataHeader_Some; exact E|].
    unfold execDataHeader in E.
    destruct (stripPrefix (str "data:") base64Data); [|discriminate].
    apply (lazyUntilBase64_onOneLine _ _ _ E).
  - left. split; reflexivity.
Qed.

Lemma stripPrefix_semicolon_first (c : N) (s : jsstring) :
  N.eqb c 59 = false -> stripPrefix (str ";base64,") (c :: s) = None.
Proof.
  intros Hc. change (str ";base64,") with (59%N :: str "base64,").
  cbn [stripPrefix]. rewrite N.eqb_sym, Hc. reflexivity.
Qed.

Lemma lazyUntilBase64_simple (declared payload : jsstring) :
  onOneLine declared = true -> semicolonFree declared = true ->
  lazyUntilBase64 (declared ++ str ";base64," ++ payload) = Some (declared, payload).
Proof.
  induction declared as [|c declared IH]; intros Hline Hsemi.
  - cbn [app]. destruct (str ";base64," ++ payload) as [|x rest] eqn:E;
      [discriminate|].
    cbn [lazyUntilBase64]. rewrite <- E, stripPrefix_app. reflexivity.
  - cbn [onOneLine semicolonFree forallb] in Hline, Hsemi.
    apply andb_true_iff in Hline, Hsemi.
    destruct Hline as [Hc Hline], Hsemi as [Hs Hsemi].
    apply negb_true_iff in Hc, Hs.
    cbn [app lazyUntilBase64].
    rewrite (stripPrefix_semicolon_first c _ Hs), Hc, (IH Hline Hsemi).
    reflexivity.
Qed.

(** X2. A data URL whose declared type holds no semicolon and no line
    terminator is split at its header: the request carries the declared type
    and, as payload, exactly what follows [;base64,]. *)
Theorem data_url_is_split_at_its_header (declared payload : jsstring) :
  onOneLine declared = true ->
  semicolonFree declared = true ->
  inlineData (buildRequest (str "data:" ++ declared ++ str ";base64," ++ payload))
  = {| mimeType := declared; data := payload |}.
Proof.
  intros Hline Hsemi. unfold buildRequest, execDataHeader.
  rewrite stripPrefix_app, (lazyUntilBase64_simple declared payload Hline Hsemi).
  reflexivity.
Qed.

Lemma lazyUntilBase64_broken (before after : jsstring) (c : N) :
  semicolonFree before = true -> isLineTerminator c = true ->
  lazyUntilBase64 (before ++ c :: after) = None.
Proof.
  intros Hsemi Hc. induction before as [|x before IH].
  - cbn [app lazyUntilBase64].
    assert (Hs : N.eqb c 59 = false).
    { unfold isLineTerminator in Hc.
      destruct (N.eqb_spec c 59) as [->|]; [discriminate | reflexivity]. }
    rewrite (stripPrefix_semicolon_first c _ Hs), Hc. reflexivity.
  - cbn [semicolonFree forallb] in Hsemi. apply andb_true_iff in Hsemi.
    destruct Hsemi as [Hs Hsemi]. apply negb_true_iff in Hs.
    cbn [app lazyUntilBase64].
    rewrite (stripPrefix_semicolon_first x _ Hs), (IH Hsemi).
    destruct (isLineTerminator x); reflexivity.
Qed.

(** X3. A line terminator in the declared type, before any semicolon, makes
    the header pattern fail: the input, header included, is sent whole as
    payload with the default type [image/jpeg]. *)
Theorem line_break_in_type_disables_the_header
        (before after : jsstring) (c : N) :
  semicolonFree before = true ->
  isLineTerminator c = true ->
  inlineData (buildRequest (str "data:" ++ before ++ c :: after))
  = {| mimeType := str "image/jpeg";
       data := str "data:" ++ before ++ c :: after |}.
Proof.
  intros Hsemi Hc. unfold buildRequest, execDataHeader.
  rewrite stripPrefix_app, (lazyUntilBase64_broken before after c Hsemi Hc).
  reflexivity.
Qed.

(* ------------------------------------------------------------------ *)
(** ** More on the exporter *)

Lemma quoteFree_app (a b : jsstring) :
  quoteFree (a ++ b) = quoteFree a && quoteFree b.
Proof. apply forallb_app. Qed.

Lemma quoteFree_replaced (s : jsstring) :
  quoteFree (replaceQuotesByApostrophes s) = true.
Proof.
  induction s as [|c s IH]; [reflexivity|].
  cbn [replaceQuotesByApostrophes map quoteFree forallb].
  fold (replaceQuotesByApostrophes s). fold (quoteFree (replaceQuotesByApostrophes s)).
  rewrite IH. destruct (N.eqb_spec c QUOTE) as [->|Hc]; [reflexivity|].
  apply N.eqb_neq in Hc. rewrite Hc. reflexivity.
Qed.

Lemma forallb_dropWhile (p q : N -> bool) (s : jsstring) :
  forallb p s = true -> forallb p (dropWhile q s) = true.
Proof.
  induction s as [|c s IH]; [reflexivity|].
  intros Hs. cbn [dropWhile]. destruct (q c); [|exact Hs].
  cbn [forallb] in Hs. apply andb_true_iff in Hs. apply IH, Hs.
Qed.

Lemma forallb_rev (p : N -> bool) (s : jsstring) :
  forallb p s = true -> forallb p (rev s) = true.
Proof.
  rewrite !forallb_forall. intros Hs c Hc. apply Hs, in_rev, Hc.
Qed.

Lemma quoteFree_trim (s : jsstring) : quoteFree s = true -> quoteFree (trim s) = true.
Proof.
  intros Hs. unfold trim, quoteFree.
  apply forallb_rev, forallb_dropWhile, forallb_rev, forallb_dropWhile, Hs.
Qed.

Lemma quoteFree_join (sep : jsstring) (l : list jsstring) :
  quoteFree sep = true -> forallb quoteFree l = true ->
  quoteFree (join sep l) = true.
Proof.
  intros Hsep. induction l as [|x l IH]; [reflexivity|].
  cbn [forallb]. intros Hl. apply andb_true_iff in Hl. destruct Hl as [Hx Hl].
  cbn [join]. destruct l as [|y l]; [exact Hx|].
  rewrite !quoteFree_app, Hx, Hsep, (IH Hl). reflexivity.
Qed.

Lemma quoteFree_summary (lineItem : LineItem num) :
  printsQuoteFree lineItem = true -> quoteFree (lineItemSummary lineItem) = true.
Proof.
  unfold printsQuoteFree, lineItemSummary. intros Hp.
  apply andb_true_iff in Hp. destruct Hp as [Hp Ht].
  apply andb_true_iff in Hp. destruct Hp as [Hq Hu].
  rewrite !quoteFree_app, Hq, Hu, Ht.
  rewrite (quoteFree_trim _ (quoteFree_replaced (description lineItem))).
  reflexivity.
Qed.

(** X4. Whatever the descriptions of the line items are, the items text of a
    row holds no double quote, so that the quotes around the cell are the
    only ones; this needs no more than that the numbers of the line items
    print without a double quote. *)
Theorem items_cell_holds_no_double_quote (extracted : InvoiceData num) :
  forallb printsQuoteFree (items extracted) = true ->
  quoteFree (itemsSummary extracted) = true.
Proof.
  intros Hp. unfold itemsSummary. apply quoteFree_join; [reflexivity|].
  rewrite forallb_forall in *. intros text Htext.
  apply in_map_iff in Htext. destruct Htext as [lineItem [<- Hin]].
  apply filter_In in Hin. apply quoteFree_summary, Hp, Hin.
Qed.

(** X5. The escaping of the file name loses nothing: two file names with the
    same escaped text are the same name. *)
Theorem escaped_file_names_are_distinct (a b : jsstring) :
  doubleQuotes a = doubleQuotes b -> a = b.
Proof.
  revert b. induction a as [|x a IH]; intros [|y b]; cbn [doubleQuotes flat_map].
  - reflexivity.
  - destruct (N.eqb y QUOTE); discriminate.
  - destruct (N.eqb x QUOTE); discriminate.
  - fold (doubleQuotes a). fold (doubleQuotes b).
    destruct (N.eqb_spec x QUOTE) as [->|Hx], (N.eqb_spec y QUOTE) as [->|Hy];
      cbn [app]; intros E.
    + injection E as E. rewrite (IH b E). reflexivity.
    + injection E as E _. congruence.
    + injection E as E _. congruence.
    + injection E as -> E. rewrite (IH b E). reflexivity.
Qed.

(** X6. Uploading files changes nothing of what an export produces: the new
    documents are waiting and contribute no row. *)
Theorem upload_leaves_export_unchanged
        (isoNow : jsstring) (files : list Upload) (s : State num) :
  handleExportCSV isoNow (handleFilesSelect files s) = handleExportCSV isoNow s.
Proof.
  unfold handleExportCSV, handleFilesSelect. cbn [sessionItems].
  rewrite filter_app.
  replace (filter isExportable (map _ files)) with (@nil Item).
  - rewrite app_nil_r. reflexivity.
  - induction files as [|f files IH]; [reflexivity | exact IH].
Qed.

(* ------------------------------------------------------------------ *)
(** ** The edit form *)

Lemma setNth_split {X : Type} (l : list X) (n : nat) (x y : X) :
  nth_error l n = Some y ->
  setNth n x l = firstn n l ++ x :: skipn (S n) l.
Proof.
  revert n; induction l as [|z l IH]; intros [|n]; cbn; try discriminate.
  - reflexivity.
  - intros Hn. rewrite (IH n Hn). reflexivity.
Qed.

Lemma setNth_length {X : Type} (l : list X) (n : nat) (x : X) :
  length (setNth n x l) = length l.
Proof.
  revert n; induction l as [|z l IH]; intros [|n]; cbn; try reflexivity.
  rewrite IH. reflexivity.
Qed.

(** X7. An edit of a line item either fails, when there is no line with
    that index, or yields the invoice with that one line changed in the
    edited field: the other lines, their number and order, and every header
    field of the invoice are as before. *)
Theorem item_edit_changes_one_line
        (extracted : InvoiceData num) (index : nat) (c : ItemChange num) :
  match handleItemChange extracted index c with
  | None => length (items extracted) <= index
  | Some newData =>
      (exists lineItem,
         nth_error (items extracted) index = Some lineItem /\
         nth_error (items newData) index = Some (assignField lineItem c)) /\
      (forall j, j <> index ->
                 nth_error (items newData) j = nth_error (items extracted) j) /\
      length (items newData) = length (items extracted) /\
      invoiceDate newData = invoiceDate extracted /\
      invoiceNumber newData = invoiceNumber extracted /\
      poNumber newData = poNumber extracted /\
      quotationNumber newData = quotationNumber extracted /\
      totalAmount newData = totalAmount extracted /\
      currency newData = currency extracted
  end.
Proof.
  unfold handleItemChange.
  destruct (nth_error (items extracted) index) as [lineItem|] eqn:Hn.
  - cbn [items invoiceDate invoiceNumber poNumber quotationNumber totalAmount
         currency].
    split; [|split; [|split]].
    + exists lineItem. split; [reflexivity|].
      apply (nth_error_setNth_same _ _ _ _ Hn).
    + intros j Hj. apply nth_error_setNth_other. congruence.
    + apply setNth_length.
    + repeat split; reflexivity.
  - apply nth_error_None. exact Hn.
Qed.

(** X8. Setting the total of a line item to zero through the form takes
    that line out of the items text of the export; the other lines are
    rendered as before. *)
Theorem zero_total_drops_the_line_from_export
        (extracted : InvoiceData num) (index : nat) (value : num)
        (lineItem : LineItem num) :
  isZero value = true ->
  nth_error (items extracted) index = Some lineItem ->
  exists newData,
    handleItemChange extracted index (ChangeTotal value) = Some newData /\
    itemsSummary newData
    = join [NEWLINE]
        (map lineItemSummary
             (filter (fun l => negb (isZero (total l)))
                     (removeNth index (items extracted)))).
Proof.
  intros Hz Hn. unfold handleItemChange. rewrite Hn.
  eexists. split; [reflexivity|].
  unfold itemsSummary, removeNth. cbn [items].
  rewrite (setNth_split _ _ _ _ Hn), !filter_app. cbn [filter assignField total].
  rewrite Hz. reflexivity.
Qed.

(* ------------------------------------------------------------------ *)
(** ** More on the handlers of the store *)

Lemma str_eqb_sym (a b : jsstring) : str_eqb a b = str_eqb b a.
Proof.
  destruct (str_eqb a b) eqn:E.
  - apply str_eqb_eq in E. subst. symmetry. apply str_eqb_refl.
  - apply str_eqb_neq in E. symmetry. apply str_eqb_neq. congruence.
Qed.

Lemma onlyResultsOfSelected_refl (s : State num) : onlyResultsOfSelected s s.
Proof. repeat split; auto. Qed.

Lemma handleDataChange_frame (newData : InvoiceData num) (s : State num) :
  onlyResultsOfSelected s (handleDataChange newData s).
Proof.
  unfold handleDataChange.
  destruct (activeItemId s) as [a|] eqn:Ea; [|apply onlyResultsOfSelected_refl].
  destruct (truthy a); [|apply onlyResultsOfSelected_refl].
  unfold onlyResultsOfSelected, isActiveId. cbn [sessionItems activeItemId].
  rewrite Ea. split; [reflexivity|]. split.
  - rewrite map_map. apply map_ext. intros i.
    destruct (str_eqb (id i) a); reflexivity.
  - intros n i Hn Hi. rewrite nth_error_map, Hn. cbn [option_map].
    rewrite str_eqb_sym, Hi. reflexivity.
Qed.

(** X9. An edit, made through [handleDataChange] directly or through either
    kind of input of the form, changes nothing but the extracted data of the
    documents that carry the selected id: the selection, and the identity,
    status and error message of every document stay, documents with another
    id are untouched, and without a selection nothing changes at all. *)
Theorem edits_replace_only_the_result
        (newData : InvoiceData num) (c : InputChange num) (index : nat)
        (d : ItemChange num) (s : State num) :
  onlyResultsOfSelected s (handleDataChange newData s) /\
  onlyResultsOfSelected s (editInput c s) /\
  onlyResultsOfSelected s (editItem index d s) /\
  (activeItemId s = None ->
   handleDataChange newData s = s /\ editInput c s = s /\ editItem index d s = s).
Proof.
  split; [apply handleDataChange_frame|]. split; [|split].
  - unfold editInput. destruct (activeItem s) as [item|];
      [|apply onlyResultsOfSelected_refl].
    destruct (result item); [apply handleDataChange_frame
                            | apply onlyResultsOfSelected_refl].
  - unfold editItem. destruct (activeItem s) as [item|];
      [|apply onlyResultsOfSelected_refl].
    destruct (result item) as [extracted|]; [|apply onlyResultsOfSelected_refl].
    destruct (handleItemChange extracted index d);
      [apply handleDataChange_frame | apply onlyResultsOfSelected_refl].
  - intros Hnone. unfold editInput, editItem, activeItem, handleDataChange.
    rewrite Hnone.
    assert (Hfind : find (fun _ : Item => false) (sessionItems s) = None)
      by (induction (sessionItems s); [reflexivity | assumption]).
    rewrite Hfind. auto.
Qed.

Lemma find_app {X : Type} (p : X -> bool) (a b : list X) :
  find p (a ++ b) = match find p a with Some x => Some x | None => find p b end.
Proof.
  induction a as [|x a IH]; [reflexivity|].
  cbn [app find]. destruct (p x); [reflexivity | exact IH].
Qed.

Lemma find_absent (wanted : jsstring) (its : list Item) :
  hasId wanted its = false ->
  find (fun i => str_eqb (id i) wanted) its = None.
Proof.
  unfold hasId. induction its as [|x its IH]; [reflexivity|].
  cbn [existsb find]. intros Hx. apply orb_false_iff in Hx.
  destruct Hx as [Hx Hr]. rewrite Hx. apply IH, Hr.
Qed.

(** X10. Uploading files selects the document made for the first of them,
    whatever was selected before, provided its identifier is new to the
    store: the active document is then that new document, waiting, without
    data and without error. *)
Theorem upload_selects_first_new_document
        (f : Upload) (others : list Upload) (s : State num) :
  hasId (randomUUID f) (sessionItems s) = false ->
  activeItem (handleFilesSelect (f :: others) s)
  = Some {| id := randomUUID f; file := picked f; previewUrl := objectURL f;
            status := IDLE; result := None; error := None |}.
Proof.
  intros Hnew. unfold activeItem, handleFilesSelect.
  cbn [map sessionItems activeItemId id].
  assert (Hact : (if match activeItemId s with
                     | Some a => negb (truthy a)
                     | None => true
                     end
                  then Some (randomUUID f) else Some (randomUUID f))
                 = Some (randomUUID f))
    by (destruct (match activeItemId s with
                  | Some a => negb (truthy a) | None => true end); reflexivity).
  rewrite Hact, find_app, (find_absent _ _ Hnew).
  cbn [find id]. rewrite str_eqb_refl. reflexivity.
Qed.

Lemma filter_filter_same {X : Type} (p : X -> bool) (l : list X) :
  filter p (filter p l) = filter p l.
Proof.
  induction l as [|x l IH]; [reflexivity|].
  cbn [filter]. destruct (p x) eqn:E; [|exact IH].
  cbn [filter]. rewrite E, IH. reflexivity.
Qed.

Lemma hasId_after_filter (wanted : jsstring) (its : list Item) :
  hasId wanted (filter (fun i => negb (str_eqb (id i) wanted)) its) = false.
Proof.
  apply hasId_false. intros i Hi. apply filter_In in Hi. destruct Hi as [_ Hi].
  apply negb_true_iff, str_eqb_neq in Hi. exact Hi.
Qed.

(** X11. Removing the same id a second time does nothing: the state is the
    one the first removal left, and no preview URL is released again. *)
Theorem second_removal_does_nothing (wanted : jsstring) (s : State num) :
  handleRemoveItem wanted (fst (handleRemoveItem wanted s))
  = (fst (handleRemoveItem wanted s), []).
Proof.
  unfold handleRemoveItem at 1. cbn [fst].
  set (s1 := fst (handleRemoveItem wanted s)).
  assert (Hits : sessionItems s1
                 = filter (fun i => negb (str_eqb (id i) wanted)) (sessionItems s))
    by reflexivity.
  assert (Hact : isActiveId s1 wanted = false).
  { unfold isActiveId, s1, handleRemoveItem. cbn [fst activeItemId].
    destruct (isActiveId s wanted) eqn:Ea.
    - destruct (filter _ (sessionItems s)) as [|first rest] eqn:Ef; [reflexivity|].
      assert (Hin : In first (filter (fun i => negb (str_eqb (id i) wanted))
                                     (sessionItems s)))
        by (rewrite Ef; left; reflexivity).
      apply filter_In in Hin. destruct Hin as [_ Hin].
      apply negb_true_iff in Hin. exact Hin.
    - exact Ea. }
  rewrite Hact, Hits, filter_filter_same.
  rewrite (find_absent _ _ (hasId_after_filter wanted (sessionItems s))).
  rewrite <- Hits. destruct s1 as [its act]. reflexivity.
Qed.

(* ------------------------------------------------------------------ *)
(** ** What every session keeps *)

Lemma advance_keeps (P : list Item -> Prop) (p : Async num unit) :
  (forall u its, P its -> P (applyUpdate u its)) ->
  forall its, P its -> P (snd (fst (advance p its))).
Proof.
  intros Hu. induction p as [a | u k IH | k IH | f k IH | r k IH]; intros its Hits;
    try exact Hits.
  - rewrite advance_SetItems. cbn [fst snd]. apply IH, Hu, Hits.
  - rewrite advance_ConsoleError. cbn [fst snd]. apply IH, Hits.
Qed.

(** One action keeps a property of the store that each handler and each
    store update keeps. *)
Lemma step_keeps (P : State num -> Prop) (w : World num) (a : Action num) :
  (forall files, a = FilesSelect files -> files <> [] -> P (store w) ->
                 P (handleFilesSelect files (store w))) ->
  (forall wanted, hasId wanted (sessionItems (store w)) = true -> P (store w) ->
                  P (selectItem wanted (store w))) ->
  (forall wanted, a = RemoveItem wanted -> P (store w) ->
                  P (fst (handleRemoveItem wanted (store w)))) ->
  (forall newData, P (store w) -> P (handleDataChange newData (store w))) ->
  (forall u its act, P {| sessionItems := its; activeItemId := act |} ->
                     P {| sessionItems := applyUpdate u its; activeItemId := act |}) ->
  P (store w) -> P (store (step w a)).
Proof.
  intros Hfiles Hselect Hremove Hchange Hupdate Hw. unfold step.
  assert (Hadv : forall p,
             P {| sessionItems := snd (fst (advance p (sessionItems (store w))));
                  activeItemId := activeItemId (store w) |}).
  { intros p.
    apply (advance_keeps
             (fun its => P {| sessionItems := its;
                              activeItemId := activeItemId (store w) |}) p).
    - intros u its. apply Hupdate.
    - destruct (store w); exact Hw. }
  assert (Hspawn : forall p, P (store (spawn p w))).
  { intros p. unfold spawn. specialize (Hadv p).
    destruct (advance p (sessionItems (store w))) as [[s0 its0] effs0].
    exact Hadv. }
  destruct (enabled w a) eqn:Hen; [|exact Hw].
  destruct a as [files | wanted | | | wanted | newData | isoNow | n ans];
    cbn [fire].
  - apply Hfiles; [reflexivity | | exact Hw].
    cbn [enabled] in Hen. intros ->. discriminate.
  - apply Hselect; [exact Hen | exact Hw].
  - apply Hspawn.
  - apply Hspawn.
  - specialize (Hremove wanted eq_refl Hw).
    destruct (handleRemoveItem wanted (store w)) as [s' revoked]. exact Hremove.
  - apply Hchange, Hw.
  - destruct (handleExportCSV isoNow (store w)); exact Hw.
  - unfold deliver. destruct (nth_error (flows w) n) as [s0|]; [|exact Hw].
    destruct (resume s0 ans) as [p|]; [|exact Hw].
    specialize (Hadv p).
    destruct (advance p (sessionItems (store w))) as [[s1 its1] effs1].
    exact Hadv.
Qed.

Lemma applyUpdate_identity (u : Update num) (its : list Item) :
  map identity (applyUpdate u its) = map identity its.
Proof.
  destruct u as [t | t d | t]; cbn [applyUpdate]; rewrite map_map;
    apply map_ext; intros i; destruct (str_eqb (id i) t); reflexivity.
Qed.

Lemma hasId_identity (wanted : jsstring) (a b : list Item) :
  map identity a = map identity b -> hasId wanted a = hasId wanted b.
Proof.
  unfold hasId. revert b; induction a as [|x a IH]; intros [|y b] E;
    cbn [map] in E; try discriminate; [reflexivity|].
  unfold identity at 1 2 in E. injection E as Ex _ _ E.
  cbn [existsb]. rewrite (IH b E), Ex. reflexivity.
Qed.

Lemma hasId_true (wanted : jsstring) (its : list Item) :
  hasId wanted its = true <-> exists i, In i its /\ id i = wanted.
Proof.
  unfold hasId. rewrite existsb_exists. split; intros [i [Hi Hid]]; exists i;
    (split; [exact Hi|]); apply str_eqb_eq; exact Hid.
Qed.

Lemma selectionValid_after_removal (wanted : jsstring) (s : State num) :
  selectionValid s -> selectionValid (fst (handleRemoveItem wanted s)).
Proof.
  unfold selectionValid, handleRemoveItem, isActiveId.
  cbn [fst activeItemId sessionItems].
  destruct (activeItemId s) as [a|]; [|intros _; exact I].
  intros Ha. destruct (str_eqb a wanted) eqn:Eaw.
  - destruct (filter _ (sessionItems s)) as [|first rest]; [exact I|].
    cbn [hasId existsb]. rewrite str_eqb_refl. reflexivity.
  - apply hasId_true in Ha. destruct Ha as [i [Hi Hid]].
    apply hasId_true. exists i. split; [|exact Hid].
    apply filter_In. split; [exact Hi|]. rewrite Hid, Eaw. reflexivity.
Qed.

Lemma selectionValid_step (w : World num) (a : Action num) :
  selectionValid (store w) -> selectionValid (store (step w a)).
Proof.
  intros Hvalid. apply step_keeps; [| | | | | exact Hvalid].
  - intros files _ Hne _. unfold selectionValid, handleFilesSelect.
    destruct files as [|f files]; [contradiction|].
    cbn [map activeItemId sessionItems id].
    replace (if match activeItemId (store w) with
                | Some a0 => negb (truthy a0) | None => true end
             then Some (randomUUID f) else Some (randomUUID f))
      with (Some (randomUUID f))
      by (destruct (match activeItemId (store w) with
                    | Some a0 => negb (truthy a0) | None => true end); reflexivity).
    apply hasId_true. eexists. split; [apply in_or_app; right; left; reflexivity|].
    reflexivity.
  - intros wanted Hw _. exact Hw.
  - intros wanted _. apply selectionValid_after_removal.
  - intros newData Hs.
    destruct (handleDataChange_frame newData (store w)) as [Hact [Hmap _]].
    unfold selectionValid in *. rewrite Hact.
    destruct (activeItemId (store w)) as [a0|]; [|exact I].
    rewrite <- Hs. apply hasId_identity.
    assert (Hproj : forall l : list Item,
               map identity l
               = map (fun t => (fst (fst (fst (fst t))), snd (fst (fst (fst t))),
                                snd (fst (fst t))))
                     (map besidesResult l))
      by (intros l; rewrite map_map; reflexivity).
    rewrite !Hproj, Hmap. reflexivity.
  - intros u its act. unfold selectionValid. cbn [activeItemId sessionItems].
    destruct act as [a0|]; [|auto]. intros Ha. rewrite <- Ha.
    apply hasId_identity, applyUpdate_identity.
Qed.

(** X12. In every session the selection is empty or is the id of a document
    that is in the store: the active document is found exactly when an id is
    selected, and it carries that id. *)
Theorem selection_always_points_at_a_document (actions : list (Action num)) :
  match activeItemId (store (session actions)) with
  | Some a =>
      exists item, activeItem (store (session actions)) = Some item /\
                   id item = a /\
                   In item (sessionItems (store (session actions)))
  | None => activeItem (store (session actions)) = None
  end.
Proof.
  assert (Hvalid : selectionValid (store (session actions))).
  { unfold session.
    assert (Hgen : forall w, selectionValid (store w) ->
                             selectionValid (store (fold_left step actions w))).
    { induction actions as [|a actions IH]; intros w Hw; [exact Hw|].
      cbn [fold_left]. apply IH, selectionValid_step, Hw. }
    apply Hgen. exact I. }
  unfold selectionValid, activeItem in *.
  destruct (activeItemId (store (session actions))) as [a|].
  - apply hasId_true in Hvalid. destruct Hvalid as [i [Hi Hid]].
    destruct (find (fun item => str_eqb (id item) a)
                   (sessionItems (store (session actions)))) as [item|] eqn:Ef.
    + apply find_some in Ef. destruct Ef as [Hin Heq].
      exists item. split; [reflexivity|]. split; [|exact Hin].
      apply str_eqb_eq. exact Heq.
    + exfalso. apply (find_none _ _ Ef) in Hi.
      apply str_eqb_neq in Hi. contradiction.
  - induction (sessionItems (store (session actions))); [reflexivity | assumption].
Qed.

Lemma errorShown_update (u : Update num) (its : list Item) :
  Forall errorShown its -> Forall errorShown (applyUpdate u its).
Proof.
  intros Hall. destruct u as [t | t d | t]; cbn [applyUpdate];
    apply Forall_map; apply (Forall_impl _ (P := errorShown)); try exact Hall;
    intros i Hi; destruct (str_eqb (id i) t); try exact Hi;
    unfold errorShown; cbn [status error]; intros E; try discriminate; reflexivity.
Qed.

Lemma errorShown_step (w : World num) (a : Action num) :
  Forall errorShown (sessionItems (store w)) ->
  Forall errorShown (sessionItems (store (step w a))).
Proof.
  intros Hshown.
  apply (step_keeps (fun s => Forall errorShown (sessionItems s)));
    [| | | | | exact Hshown].
  - intros files _ _. unfold handleFilesSelect. cbn [sessionItems].
    intros Hw. apply Forall_app. split; [exact Hw|].
    apply Forall_map, Forall_forall. intros f _ E. discriminate.
  - intros wanted _ Hw. exact Hw.
  - intros wanted _ Hw. unfold handleRemoveItem. cbn [fst sessionItems].
    rewrite Forall_forall in *. intros i Hi. apply filter_In in Hi. apply Hw, Hi.
  - intros newData Hw. unfold handleDataChange.
    destruct (activeItemId (store w)) as [a0|]; [|exact Hw].
    destruct (truthy a0); [|exact Hw]. cbn [sessionItems].
    apply Forall_map. apply (Forall_impl _ (P := errorShown)); [|exact Hw].
    intros i Hi. destruct (str_eqb (id i) a0); exact Hi.
  - intros u its act. cbn [sessionItems]. apply errorShown_update.
Qed.

(** X13. In every session, each document whose status is [ERROR] carries
    the fixed, non-empty failure message as its error. *)
Theorem failed_documents_carry_the_message (actions : list (Action num)) :
  Forall (fun i => status i = ERROR ->
                   error i = Some FAILURE_MESSAGE /\ FAILURE_MESSAGE <> [])
         (sessionItems (store (session actions))).
Proof.
  assert (Hgen : forall w, Forall errorShown (sessionItems (store w)) ->
                 Forall errorShown (sessionItems (store (fold_left step actions w)))).
  { induction actions as [|a actions IH]; intros w Hw; [exact Hw|].
    cbn [fold_left]. apply IH, errorShown_step, Hw. }
  specialize (Hgen initialWorld (Forall_nil _)).
  apply (Forall_impl _ (P := errorShown)); [|exact Hgen].
  intros i Hi E. split; [apply Hi, E | discriminate].
Qed.

Lemma distinct_NoDup (l : list jsstring) : distinct l = true -> NoDup l.
Proof.
  induction l as [|x l IH]; intros Hd; [constructor|].
  cbn [distinct] in Hd. apply andb_true_iff in Hd. destruct Hd as [Hx Hl].
  constructor; [|apply IH, Hl].
  intros Hin. apply negb_true_iff in Hx.
  assert (Hex : existsb (str_eqb x) l = true)
    by (apply existsb_exists; exists x; split; [exact Hin | apply str_eqb_refl]).
  congruence.
Qed.

Lemma NoDup_ids_filter (p : Item -> bool) (its : list Item) :
  NoDup (map id its) -> NoDup (map id (filter p its)).
Proof.
  induction its as [|x its IH]; intros Hnd; [constructor|].
  cbn [map] in Hnd. inversion Hnd as [|? ? Hx Hrest]; subst.
  cbn [filter]. destruct (p x); [|apply IH, Hrest].
  cbn [map]. constructor; [|apply IH, Hrest].
  intros Hin. apply Hx. apply in_map_iff in Hin. destruct Hin as [i [Hid Hi]].
  apply in_map_iff. exists i. split; [exact Hid|]. apply filter_In in Hi. apply Hi.
Qed.

Lemma ids_of_identity (its : list Item) :
  map id its = map (fun t => fst (fst t)) (map identity its).
Proof. rewrite map_map. reflexivity. Qed.

Lemma handleDataChange_identity (newData : InvoiceData num) (s : State num) :
  map identity (sessionItems (handleDataChange newData s))
  = map identity (sessionItems s).
Proof.
  destruct (handleDataChange_frame newData s) as [_ [Hmap _]].
  assert (Hproj : forall l : list Item,
             map identity l
             = map (fun t => (fst (fst (fst (fst t))), snd (fst (fst (fst t))),
                              snd (fst (fst t))))
                   (map besidesResult l))
    by (intros l; rewrite map_map; reflexivity).
  rewrite !Hproj, Hmap. reflexivity.
Qed.

Lemma unique_ids_step (w : World num) (a : Action num) :
  NoDup (map id (sessionItems (store w))) ->
  freshAt w a = true ->
  NoDup (map id (sessionItems (store (step w a)))).
Proof.
  intros Hnd Hfresh.
  apply (step_keeps (fun s => NoDup (map id (sessionItems s))));
    [| | | | | exact Hnd].
  - intros files -> _ _. cbn [freshAt] in Hfresh.
    apply andb_true_iff in Hfresh. destruct Hfresh as [Hd Hnew].
    unfold handleFilesSelect. cbn [sessionItems].
    rewrite map_app, map_map. cbn [id].
    apply NoDup_app; [exact Hnd | apply distinct_NoDup, Hd |].
    intros x Hold Hin. apply in_map_iff in Hin. destruct Hin as [f [<- Hf]].
    rewrite forallb_forall in Hnew. specialize (Hnew f Hf).
    apply negb_true_iff in Hnew. rewrite hasId_false in Hnew.
    apply in_map_iff in Hold. destruct Hold as [i [Hid Hi]].
    apply (Hnew i Hi Hid).
  - intros wanted _ Hs. exact Hs.
  - intros wanted _ Hs. unfold handleRemoveItem. cbn [fst sessionItems].
    apply NoDup_ids_filter, Hs.
  - intros newData Hs.
    rewrite ids_of_identity, handleDataChange_identity, <- ids_of_identity.
    exact Hs.
  - intros u its act. cbn [sessionItems]. intros Hs.
    rewrite ids_of_identity, applyUpdate_identity, <- ids_of_identity. exact Hs.
Qed.

(** X14. As long as the identifiers handed out for uploads are new and
    different from each other, no two documents of a session share an id. *)
Theorem ids_stay_unique (actions : list (Action num)) :
  freshAlong initialWorld actions = true ->
  NoDup (map id (sessionItems (store (session actions)))).
Proof.
  unfold session.
  assert (Hgen : forall w,
             NoDup (map id (sessionItems (store w))) ->
             freshAlong w actions = true ->
             NoDup (map id (sessionItems (store (fold_left step actions w))))).
  { induction actions as [|a actions IH]; intros w Hnd Hfresh; [exact Hnd|].
    cbn [freshAlong] in Hfresh. apply andb_true_iff in Hfresh.
    destruct Hfresh as [Ha Hrest]. cbn [fold_left].
    apply IH; [apply unique_ids_step; assumption | exact Hrest]. }
  apply Hgen. constructor.
Qed.

(** X15. Only an upload and a removal change which documents the store
    holds: after any other action, an answer of the environment included,
    the store holds the same documents in the same order, each with the id,
    file and preview URL it had. *)
Theorem only_upload_and_removal_change_the_documents
        (w : World num) (a : Action num) :
  match a with
  | FilesSelect _ | RemoveItem _ => True
  | _ => map identity (sessionItems (store (step w a)))
         = map identity (sessionItems (store w))
  end.
Proof.
  assert (Hkeep : (forall files, a <> FilesSelect files) ->
                  (forall wanted, a <> RemoveItem wanted) ->
                  map identity (sessionItems (store (step w a)))
                  = map identity (sessionItems (store w))).
  { intros Hnf Hnr.
    apply (step_keeps (fun s => map identity (sessionItems s)
                                = map identity (sessionItems (store w))));
      [| | | | | reflexivity].
    - intros files E. exfalso. apply (Hnf files E).
    - intros wanted _ _. reflexivity.
    - intros wanted E. exfalso. apply (Hnr wanted E).
    - intros newData _. apply handleDataChange_identity.
    - intros u its act. cbn [sessionItems]. intros <-.
      apply applyUpdate_identity. }
  destruct a; try exact I; apply Hkeep; intros; discriminate.
Qed.

(* ------------------------------------------------------------------ *)
(** ** More on the orchestrator *)

(** X16. When the file is read and the endpoint answers with a non-empty
    text that parses, the call of [analyzeItem] is over after the answer,
    having updated the store, read the file, issued one request and updated
    the store again, with nothing logged; the item it was started for has
    status [SUCCESS], the parsed data as result and no error message, its
    identity unchanged, and items with another id are untouched. *)
Theorem successful_extraction_stores_the_data
        (item : Item) (dataUrl t : jsstring) (parsed : InvoiceData num)
        (its : list Item) :
  truthy t = true ->
  JSON_parse t = Some parsed ->
  let outcome := runAlone (analyzeItem item)
                          [FileRead (Some dataUrl); Answered (Resolved (Some t))]
                          its in
  fst (fst outcome) = Finished /\
  snd outcome = [ DidSetItems (MarkAnalyzing (id item));
                  DidReadFile (file item);
                  DidRequest (buildRequest dataUrl);
                  DidSetItems (MarkSuccess (id item) parsed) ] /\
  forall (n : nat) (before : Item),
    nth_error its n = Some before ->
    exists after : Item,
      nth_error (snd (fst outcome)) n = Some after /\
      (id before <> id item -> after = before) /\
      (id before = id item ->
         status after = SUCCESS /\ result after = Some parsed /\
         error after = None /\ identity after = identity before).
Proof.
  intros Ht Hp outcome.
  assert (Hrun : outcome
                 = (Finished,
                    applyUpdate (MarkSuccess (id item) parsed)
                      (applyUpdate (MarkAnalyzing (id item)) its),
                    [ DidSetItems (MarkAnalyzing (id item));
                      DidReadFile (file item);
                      DidRequest (buildRequest dataUrl);
                      DidSetItems (MarkSuccess (id item) parsed) ])).
  { unfold outcome, runAlone, analyzeItem, fileToBase64, analyzeInvoiceImage.
    cbn [advance bind settle resume]. rewrite Ht, Hp.
    cbn [advance bind settle resume app]. reflexivity. }
  rewrite Hrun. cbn [fst snd]. split; [reflexivity|]. split; [reflexivity|].
  intros n before Hn. cbn [applyUpdate]. rewrite map_map, nth_error_map, Hn.
  cbn [option_map]. eexists. split; [reflexivity|].
  destruct (str_eqb (id before) (id item)) eqn:E; cbn [id]; rewrite E.
  - split; [intros Hne; apply str_eqb_eq in E; contradiction|].
    intros _. repeat split.
  - split; [reflexivity|]. intros He. apply str_eqb_neq in E. contradiction.
Qed.

Lemma extractedFrom_fails (o : option jsstring * Reply) :
  extractionFails (fst o) (snd o)
  = match extractedFrom o with Some _ => false | None => true end.
Proof.
  destruct o as [[dataUrl|] [|[t|]]]; cbn; try reflexivity.
  destruct (truthy t); cbn; [|reflexivity].
  destruct (JSON_parse t); reflexivity.
Qed.

Lemma settleDoc_map (item : Item) (o : option jsstring * Reply) (its : list Item) :
  applyUpdate (outcomeUpdate item o) (applyUpdate (MarkAnalyzing (id item)) its)
  = map (settleItem item o) its.
Proof.
  unfold outcomeUpdate, settleItem.
  destruct (extractedFrom o) as [parsed|]; cbn [applyUpdate]; rewrite map_map;
    apply map_ext; intros i;
    destruct (str_eqb (id i) (id item)) eqn:E; cbn [id]; rewrite E; reflexivity.
Qed.

(** One document of the loop with its answers: it is started, settled by
    its own outcome, and the loop goes on. *)
Lemma document_outcome (item : Item) (f : unit -> Async num unit)
      (o : option jsstring * Reply) (more : list Answer) (its : list Item) :
  exists middle : list (Effect num),
    runAlone (bind (analyzeItem item) f) (docAnswers o ++ more) its
    = andThen middle (runAlone (f tt) more (map (settleItem item o) its)).
Proof.
  rewrite <- settleDoc_map. rewrite analyzeItem_unfold. cbn [bind].
  rewrite runAlone_SetItems_full.
  assert (Hcatch : forall its0,
            runAlone (bind (onCatch item) f) more its0
            = andThen [DidConsoleError; DidSetItems (MarkError (id item))]
                      (runAlone (f tt) more
                                (applyUpdate (MarkError (id item)) its0))).
  { intros its0. unfold onCatch. cbn [bind].
    rewrite runAlone_ConsoleError_full, runAlone_SetItems_full, andThen_andThen.
    reflexivity. }
  assert (Hcatch2 : forall its0,
            runAlone (bind (ConsoleError (onCatch item)) f) more its0
            = andThen [DidConsoleError; DidConsoleError;
                       DidSetItems (MarkError (id item))]
                      (runAlone (f tt) more
                                (applyUpdate (MarkError (id item)) its0))).
  { intros its0. cbn [bind]. rewrite runAlone_ConsoleError_full, Hcatch,
      andThen_andThen. reflexivity. }
  unfold outcomeUpdate, extractedFrom, docAnswers.
  destruct o as [[dataUrl|] reply]; cbn [fst snd app].
  - rewrite runAlone_AwaitFile_full. cbn [afterRead].
    unfold analyzeInvoiceImage. cbn [bind].
    rewrite runAlone_AwaitGenerate_full, !andThen_andThen.
    destruct reply as [|[t|]]; cbn [bind afterExtract].
    + rewrite Hcatch2, andThen_andThen. eexists. reflexivity.
    + destruct (truthy t); cbn [bind afterExtract].
      * destruct (JSON_parse t); cbn [bind afterExtract].
        -- rewrite runAlone_SetItems_full, andThen_andThen. eexists. reflexivity.
        -- rewrite Hcatch2, andThen_andThen. eexists. reflexivity.
      * rewrite Hcatch2, andThen_andThen. eexists. reflexivity.
    + rewrite Hcatch2, andThen_andThen. eexists. reflexivity.
  - rewrite runAlone_AwaitFile_full. cbn [afterRead].
    rewrite Hcatch, !andThen_andThen. eexists. reflexivity.
Qed.

Lemma loop_outcomes (docs : list (Item * (option jsstring * Reply))) :
  forall its,
    fst (runAlone (forOf (map fst docs) analyzeItem)
                  (flat_map (fun d => docAnswers (snd d)) docs) its)
    = (Finished,
       fold_left (fun st d => map (settleItem (fst d) (snd d)) st) docs its).
Proof.
  induction docs as [|[item o] docs IH]; intros its.
  - reflexivity.
  - cbn [map forOf flat_map fst snd fold_left].
    destruct (document_outcome item (fun _ => forOf (map fst docs) analyzeItem) o
                (flat_map (fun d => docAnswers (snd d)) docs) its)
      as [middle Hrun].
    rewrite Hrun. unfold andThen. cbn [fst snd].
    specialize (IH (map (settleItem item o) its)).
    destruct (runAlone _ _ _) as [[s its'] effs]. cbn [fst snd] in *.
    exact IH.
Qed.

Lemma fold_settle_map (docs : list (Item * (option jsstring * Reply)))
      (its : list Item) :
  fold_left (fun st d => map (settleItem (fst d) (snd d)) st) docs its
  = map (fun i => fold_left (fun acc d => settleItem (fst d) (snd d) acc) docs i) its.
Proof.
  revert its. induction docs as [|d docs IH]; intros its; cbn [fold_left].
  - symmetry. apply map_id.
  - rewrite IH, map_map. reflexivity.
Qed.

Lemma settleItem_identity (item : Item) (o : option jsstring * Reply) (i : Item) :
  identity (settleItem item o i) = identity i.
Proof.
  unfold settleItem. destruct (str_eqb (id i) (id item)); [|reflexivity].
  destruct (extractedFrom o); reflexivity.
Qed.

Lemma fold_settle_other (docs : list (Item * (option jsstring * Reply))) (i : Item) :
  (forall d, In d docs -> id (fst d) <> id i) ->
  fold_left (fun acc d => settleItem (fst d) (snd d) acc) docs i = i.
Proof.
  revert i. induction docs as [|d docs IH]; intros i Hother; [reflexivity|].
  cbn [fold_left].
  assert (Hd : settleItem (fst d) (snd d) i = i).
  { unfold settleItem.
    assert (E : str_eqb (id i) (id (fst d)) = false)
      by (apply str_eqb_neq; intros E; apply (Hother d (or_introl eq_refl));
          symmetry; exact E).
    rewrite E. reflexivity. }
  rewrite Hd. apply IH. intros d' Hd'. apply Hother. right. exact Hd'.
Qed.

Lemma fold_settle_hit (docs : list (Item * (option jsstring * Reply)))
      (d : Item * (option jsstring * Reply)) (i : Item) :
  NoDup (map (fun d => id (fst d)) docs) ->
  In d docs -> id (fst d) = id i ->
  fold_left (fun acc d => settleItem (fst d) (snd d) acc) docs i
  = settleItem (fst d) (snd d) i.
Proof.
  revert i. induction docs as [|d0 docs IH]; intros i Hnd Hin Hid; [destruct Hin|].
  cbn [map] in Hnd. inversion Hnd as [|? ? Hfresh Hrest]; subst.
  cbn [fold_left]. destruct Hin as [-> | Hin].
  - apply fold_settle_other. intros d' Hd' E. apply Hfresh.
    apply in_map_iff. exists d'. split; [|exact Hd'].
    rewrite E. pose proof (settleItem_identity (fst d) (snd d) i) as Hi.
    unfold identity in Hi. injection Hi as Hi _ _. rewrite Hi. symmetry. exact Hid.
  - assert (Hd0 : settleItem (fst d0) (snd d0) i = i).
    { unfold settleItem.
      assert (E : str_eqb (id i) (id (fst d0)) = false).
      { apply str_eqb_neq. intros E. apply Hfresh. apply in_map_iff.
        exists d. split; [|exact Hin]. rewrite Hid. exact E. }
      rewrite E. reflexivity. }
    rewrite Hd0. apply IH; assumption.
Qed.

Lemma fold_settle_identity (docs : list (Item * (option jsstring * Reply))) (i : Item) :
  identity (fold_left (fun acc d => settleItem (fst d) (snd d) acc) docs i)
  = identity i.
Proof.
  revert i. induction docs as [|d docs IH]; intros i; [reflexivity|].
  cbn [fold_left]. rewrite IH. apply settleItem_identity.
Qed.

Lemma unique_id_same_item (its : list Item) (x y : Item) :
  NoDup (map id its) -> In x its -> In y its -> id x = id y -> x = y.
Proof.
  induction its as [|z its IH]; intros Hnd Hx Hy Hid; [destruct Hx|].
  cbn [map] in Hnd. inversion Hnd as [|? ? Hfresh Hrest]; subst.
  destruct Hx as [-> | Hx], Hy as [-> | Hy].
  - reflexivity.
  - exfalso. apply Hfresh. rewrite Hid. apply in_map, Hy.
  - exfalso. apply Hfresh. rewrite <- Hid. apply in_map, Hx.
  - apply IH; assumption.
Qed.

(** X17. A batch over a store with unique ids, in which every selected
    document gets its answers, ends with each selected document settled by
    its own outcome alone: [SUCCESS] with the parsed data and no error if
    its extraction yields data, [ERROR] with the failure message and its
    previous result otherwise, whatever happened to the documents before or
    after it; identities are kept and the documents that were not selected
    are untouched. *)
Theorem batch_settles_each_document_by_its_own_outcome
        (stored : list Item) (docs : list (Item * (option jsstring * Reply))) :
  NoDup (map id stored) ->
  map fst docs = filter isPending stored ->
  let run := runAlone (handleAnalyzeAll stored)
                      (flat_map (fun d => docAnswers (snd d)) docs) stored in
  fst (fst run) = Finished /\
  forall (n : nat) (before : Item),
    nth_error stored n = Some before ->
    exists after : Item,
      nth_error (snd (fst run)) n = Some after /\
      identity after = identity before /\
      (isPending before = false -> after = before) /\
      (forall o, In (before, o) docs ->
         match extractedFrom o with
         | Some parsed =>
             status after = SUCCESS /\ result after = Some parsed /\
             error after = None
         | None =>
             status after = ERROR /\ result after = result before /\
             error after = Some FAILURE_MESSAGE
         end).
Proof.
  intros Hnd Hdocs run. unfold run, handleAnalyzeAll. rewrite <- Hdocs.
  pose proof (loop_outcomes docs stored) as Hrun.
  destruct (runAlone (forOf (map fst docs) analyzeItem)
                     (flat_map (fun d => docAnswers (snd d)) docs) stored)
    as [[s its'] effs].
  cbn [fst snd] in *. injection Hrun as -> ->. split; [reflexivity|].
  intros n before Hn. rewrite fold_settle_map, nth_error_map, Hn. cbn [option_map].
  eexists. split; [reflexivity|]. split; [apply fold_settle_identity|].
  assert (Hstored : In before stored) by (apply (nth_error_In _ _ Hn)).
  assert (Hids : NoDup (map (fun d => id (fst d)) docs)).
  { replace (map (fun d => id (fst d)) docs) with (map id (map fst docs))
      by (rewrite map_map; reflexivity).
    rewrite Hdocs. apply NoDup_ids_filter, Hnd. }
  split.
  - intros Hnot. apply fold_settle_other. intros d Hd E.
    assert (Hin : In (fst d) (filter isPending stored))
      by (rewrite <- Hdocs; apply in_map, Hd).
    apply filter_In in Hin. destruct Hin as [Hin Hpend].
    rewrite (unique_id_same_item stored (fst d) before Hnd Hin Hstored E) in Hpend.
    congruence.
  - intros o Ho.
    rewrite (fold_settle_hit docs (before, o) before Hids Ho eq_refl).
    cbn [fst snd]. unfold settleItem. rewrite str_eqb_refl.
    destruct (extractedFrom o); cbn; auto.
Qed.

Lemma atMost_weaken (reads requests : nat) (p : Async num unit) :
  AtMost reads requests p ->
  forall reads' requests',
    reads <= reads' -> requests <= requests' -> AtMost reads' requests' p.
Proof.
  induction 1 as [r q a | r q u k _ IH | r q k _ IH | r q f k _ IH | r q x k _ IH];
    intros r' q' Hr Hq.
  - constructor.
  - constructor. apply IH; assumption.
  - constructor. apply IH; assumption.
  - destruct r' as [|r']; [lia|]. constructor. intros y. apply IH; lia.
  - destruct q' as [|q']; [lia|]. constructor. intros y. apply IH; lia.
Qed.

Lemma atMost_bind (reads requests reads' requests' : nat)
      (m : Async num unit) (f : unit -> Async num unit) :
  AtMost reads requests m ->
  (forall x, AtMost reads' requests' (f x)) ->
  AtMost (reads + reads') (requests + requests') (bind m f).
Proof.
  intros Hm Hf.
  induction Hm as [r q a | r q u k _ IH | r q k _ IH | r q fl k _ IH | r q x k _ IH];
    cbn [bind].
  - apply (atMost_weaken reads' requests' _ (Hf a)); lia.
  - constructor. exact IH.
  - constructor. exact IH.
  - cbn [Nat.add]. constructor. exact IH.
  - cbn [Nat.add]. constructor. exact IH.
Qed.

Lemma atMost_analyzeItem (item : Item) : AtMost 1 1 (analyzeItem item).
Proof.
  rewrite analyzeItem_unfold. constructor. constructor.
  intros [base64|]; cbn [afterRead].
  - unfold analyzeInvoiceImage. cbn [bind]. constructor.
    intros [|[t|]]; cbn [bind afterExtract]; unfold onCatch;
      try (repeat constructor).
    destruct (truthy t); cbn [bind afterExtract]; [|repeat constructor].
    destruct (JSON_parse t); cbn [bind afterExtract]; repeat constructor.
  - unfold onCatch. repeat constructor.
Qed.

Lemma atMost_loop (l : list Item) :
  AtMost (length l) (length l) (forOf l analyzeItem).
Proof.
  induction l as [|item l IH]; cbn [forOf length]; [constructor|].
  apply (atMost_bind 1 1 (length l) (length l)); [apply atMost_analyzeItem|].
  intros _. exact IH.
Qed.

Lemma atMost_run (reads requests : nat) (p : Async num unit) :
  AtMost reads requests p ->
  forall answers its,
    readsIn (snd (runAlone p answers its)) <= reads /\
    requestsIn (snd (runAlone p answers its)) <= requests.
Proof.
  induction 1 as [r q a | r q u k _ IH | r q k _ IH | r q f k _ IH | r q x k _ IH];
    intros answers its.
  - destruct a. rewrite runAlone_Ret. cbn. lia.
  - rewrite runAlone_SetItems. cbn [readsIn requestsIn]. apply IH.
  - rewrite runAlone_ConsoleError. cbn [readsIn requestsIn]. apply IH.
  - rewrite runAlone_AwaitFile. cbn [readsIn requestsIn].
    assert (Hs : readsIn (snd (settle (AwaitingFile f k) answers its)) <= r /\
                 requestsIn (snd (settle (AwaitingFile f k) answers its)) <= q).
    { revert its. induction answers as [|a answers IHa]; intros its.
      - cbn. lia.
      - rewrite settle_cons. destruct a as [y | reply]; cbn [resume];
          [apply IH | apply IHa]. }
    lia.
  - rewrite runAlone_AwaitGenerate. cbn [readsIn requestsIn].
    assert (Hs : readsIn (snd (settle (AwaitingReply x k) answers its)) <= r /\
                 requestsIn (snd (settle (AwaitingReply x k) answers its)) <= q).
    { revert its. induction answers as [|a answers IHa]; intros its.
      - cbn. lia.
      - rewrite settle_cons. destruct a as [y | reply]; cbn [resume];
          [apply IHa | apply IH]. }
    lia.
Qed.

(** X18. Nothing is retried.  In any session, whatever is answered and
    whenever, an extraction started for one document reads at most one file
    and issues at most one request, and a batch reads at most as many files
    and issues at most as many requests as it selected documents. *)
Theorem nothing_is_retried
        (w : World num) (item : Item) (later : list (Action num)) :
  (exists added,
     log (fold_left step later (spawn (analyzeItem item) w)) = log w ++ added /\
     readsIn (flowEffects (length (flows w)) added) <= 1 /\
     requestsIn (flowEffects (length (flows w)) added) <= 1) /\
  (exists added,
     log (fold_left step later (fire AnalyzeAll w)) = log w ++ added /\
     readsIn (flowEffects (length (flows w)) added)
     <= length (filter isPending (sessionItems (store w))) /\
     requestsIn (flowEffects (length (flows w)) added)
     <= length (filter isPending (sessionItems (store w)))).
Proof.
  split.
  - destruct (spawned_in_session (analyzeItem item) w later []) as [added [Hlog Heff]].
    exists added. split; [exact Hlog|]. rewrite Heff.
    apply (atMost_run 1 1 _ (atMost_analyzeItem item)).
  - cbn [fire]. unfold handleAnalyzeAll.
    destruct (spawned_in_session
                (forOf (filter isPending (sessionItems (store w))) analyzeItem)
                w later []) as [added [Hlog Heff]].
    exists added. split; [exact Hlog|]. rewrite Heff.
    apply (atMost_run _ _ _ (atMost_loop _)).
Qed.

Lemma lazyUntilBase64_first (s group rest : jsstring) :
  lazyUntilBase64 s = Some (group, rest) ->
  forall group' rest',
    s = group' ++ str ";base64," ++ rest' -> length group <= length group'.
Proof.
  revert group rest; induction s as [|c s IH]; intros group rest.
  - cbn. discriminate.
  - cbn [lazyUntilBase64].
    destruct (stripPrefix (str ";base64,") (c :: s)) as [r|] eqn:Ep.
    + intros E; injection E as <- <-. intros. cbn. lia.
    + destruct (isLineTerminator c); [discriminate|].
      destruct (lazyUntilBase64 s) as [[g r]|] eqn:Es; [|discriminate].
      intros E; injection E as <- <-. intros group' rest' Hs.
      destruct group' as [|c' group'].
      * cbn [app] in Hs. rewrite Hs, stripPrefix_app in Ep. discriminate.
      * cbn [app] in Hs. injection Hs as _ Hs. cbn [length].
        apply le_n_S. apply (IH g r eq_refl group' rest' Hs).
Qed.

(** X19. When the input has a header, the split is made at the first
    [;base64,]: read in any other way as [data:], a type, [;base64,] and a
    payload, the input has a type at least as long as the one sent. *)
Theorem header_ends_at_the_first_marker
        (base64Data declared payload : jsstring) :
  base64Data = str "data:" ++ declared ++ str ";base64," ++ payload ->
  onOneLine declared = true ->
  length (mimeType (inlineData (buildRequest base64Data))) <= length declared /\
  base64Data = str "data:" ++ mimeType (inlineData (buildRequest base64Data))
                 ++ str ";base64," ++ data (inlineData (buildRequest base64Data)).
Proof.
  intros Hs Hline. unfold buildRequest. cbn [inlineData mimeType data].
  destruct (execDataHeader base64Data) as [[group rest]|] eqn:E.
  - split; [|apply execDataHeader_Some; exact E].
    unfold execDataHeader in E. rewrite Hs, stripPrefix_app in E.
    apply (lazyUntilBase64_first _ _ _ E declared payload eq_refl).
  - exfalso. unfold execDataHeader in E. rewrite Hs, stripPrefix_app in E.
    clear Hs. revert E. induction declared as [|c declared IH]; intros E.
    + cbn [app] in E. destruct (str ";base64," ++ payload) as [|x r] eqn:Ex;
        [discriminate|].
      cbn [lazyUntilBase64] in E. rewrite <- Ex, stripPrefix_app in E.
      discriminate.
    + cbn [onOneLine forallb] in Hline. apply andb_true_iff in Hline.
      destruct Hline as [Hc Hline]. apply negb_true_iff in Hc.
      cbn [app lazyUntilBase64] in E.
      destruct (stripPrefix (str ";base64,") (c :: declared ++ str ";base64," ++ payload));
        [discriminate|].
      rewrite Hc in E.
      destruct (lazyUntilBase64 (declared ++ str ";base64," ++ payload))
        as [[g r]|] eqn:El; [discriminate|].
      apply (IH Hline eq_refl).
Qed.

Lemma find_nothing (its : list Item) : find (fun _ : Item => false) its = None.
Proof. induction its as [|x its IH]; [reflexivity | exact IH]. Qed.

(** X20. An invoice number typed into the form of the active document
    reaches the export: if that document has a non-empty id and extracted
    data, then after the edit the store holds at its place a document with
    the same status whose row has the typed text, between quotes, as its
    third cell. *)
Theorem typed_invoice_number_reaches_the_export
        (s : State num) (n : nat) (item : Item) (extracted : InvoiceData num)
        (value : jsstring) :
  activeItem s = Some item ->
  nth_error (sessionItems s) n = Some item ->
  result item = Some extracted ->
  truthy (id item) = true ->
  exists edited,
    nth_error (sessionItems (editInput (ChangeInvoiceNumber value) s)) n
    = Some edited /\
    status edited = status item /\
    nth_error (rowOf edited) 2 = Some (quoted value).
Proof.
  intros Hact Hn Hres Hid. unfold editInput. rewrite Hact, Hres.
  unfold activeItem in Hact.
  destruct (activeItemId s) as [a|] eqn:Ea.
  - apply find_some in Hact. destruct Hact as [_ Heq].
    pose proof Heq as Heq'. apply str_eqb_eq in Heq'. subst a.
    unfold handleDataChange. rewrite Ea, Hid. cbn [sessionItems].
    rewrite nth_error_map, Hn. cbn [option_map]. rewrite Heq.
    eexists. split; [reflexivity|]. split; [reflexivity|].
    unfold rowOf. cbn [result]. rewrite csvRow_cells. reflexivity.
  - exfalso. rewrite find_nothing in Hact. discriminate.
Qed.

(* ------------------------------------------------------------------ *)
(** ** A batch, its store and its log *)

(** Running a computation to its next [await] applies to the store the
    updates it makes, in the order of its effects. *)
Lemma advance_replay (p : Async num unit) (its : list Item) :
  snd (fst (advance p its))
  = fold_left (fun st u => applyUpdate u st) (updatesIn (snd (advance p its))) its.
Proof.
  revert its. induction p as [a | u k IH | k IH | f k IH | r k IH]; intros its;
    try reflexivity.
  - rewrite advance_SetItems. cbn [fst snd updatesIn fold_left]. apply IH.
  - rewrite advance_ConsoleError. cbn [fst snd updatesIn]. apply IH.
Qed.

Lemma deliver_replay (w : World num) (m : nat) (ans : Answer) :
  exists effs,
    log (step w (Deliver m ans)) = log w ++ map (ByFlow m) effs /\
    sessionItems (store (step w (Deliver m ans)))
    = fold_left (fun st u => applyUpdate u st) (updatesIn effs)
                (sessionItems (store w)).
Proof.
  unfold step. cbn [enabled fire]. unfold deliver.
  assert (Hsame : exists effs,
             log w = log w ++ map (ByFlow m) effs /\
             sessionItems (store w)
             = fold_left (fun st u => applyUpdate u st) (updatesIn effs)
                         (sessionItems (store w)))
    by (exists []; cbn; rewrite app_nil_r; auto).
  destruct (nth_error (flows w) m) as [s|]; [|exact Hsame].
  destruct (resume s ans) as [p|]; [|exact Hsame].
  pose proof (advance_replay p (sessionItems (store w))) as Hrep.
  destruct (advance p (sessionItems (store w))) as [[s' its] effs].
  cbn [fst snd log store sessionItems] in *. exists effs. auto.
Qed.

Lemma final_update_on_item (target : jsstring) (its : list Item) (n : nat)
      (before : Item) :
  nth_error its n = Some before ->
  id before = target ->
  (exists after,
     nth_error (applyUpdate (MarkError target) its) n = Some after /\
     status after = ERROR) /\
  (forall parsed, exists after,
     nth_error (applyUpdate (MarkSuccess target parsed) its) n = Some after /\
     status after = SUCCESS /\ result after = Some parsed).
Proof.
  intros Hn Hid. apply str_eqb_eq in Hid. split; [|intros parsed];
    cbn [applyUpdate]; rewrite nth_error_map, Hn; cbn [option_map]; rewrite Hid;
    eexists; (split; [reflexivity|]); cbn; auto.
Qed.

(** One document of the loop with its answers, effect by effect. *)
Lemma document_trace (item : Item) (f : unit -> Async num unit)
      (o : option jsstring * Reply) (more : list Answer) (its : list Item) :
  runAlone (bind (analyzeItem item) f) (docAnswers o ++ more) its
  = andThen (docEffects item o)
            (runAlone (f tt) more (map (settleItem item o) its)).
Proof.
  rewrite <- settleDoc_map. rewrite analyzeItem_unfold. cbn [bind].
  rewrite runAlone_SetItems_full.
  assert (Hcatch : forall its0,
            runAlone (bind (onCatch item) f) more its0
            = andThen [DidConsoleError; DidSetItems (MarkError (id item))]
                      (runAlone (f tt) more
                                (applyUpdate (MarkError (id item)) its0))).
  { intros its0. unfold onCatch. cbn [bind].
    rewrite runAlone_ConsoleError_full, runAlone_SetItems_full, andThen_andThen.
    reflexivity. }
  assert (Hcatch2 : forall its0,
            runAlone (bind (ConsoleError (onCatch item)) f) more its0
            = andThen [DidConsoleError; DidConsoleError;
                       DidSetItems (MarkError (id item))]
                      (runAlone (f tt) more
                                (applyUpdate (MarkError (id item)) its0))).
  { intros its0. cbn [bind]. rewrite runAlone_ConsoleError_full, Hcatch,
      andThen_andThen. reflexivity. }
  unfold outcomeUpdate, docEffects, extractedFrom, docAnswers.
  destruct o as [[dataUrl|] reply]; cbn [fst snd app].
  - rewrite runAlone_AwaitFile_full. cbn [afterRead].
    unfold analyzeInvoiceImage. cbn [bind].
    rewrite runAlone_AwaitGenerate_full, !andThen_andThen.
    destruct reply as [|[t|]]; cbn [bind afterExtract].
    + rewrite Hcatch2, andThen_andThen. reflexivity.
    + destruct (truthy t); cbn [bind afterExtract].
      * destruct (JSON_parse t); cbn [bind afterExtract].
        -- rewrite runAlone_SetItems_full, andThen_andThen. reflexivity.
        -- rewrite Hcatch2, andThen_andThen. reflexivity.
      * rewrite Hcatch2, andThen_andThen. reflexivity.
    + rewrite Hcatch2, andThen_andThen. reflexivity.
  - rewrite runAlone_AwaitFile_full. cbn [afterRead].
    rewrite Hcatch, !andThen_andThen. reflexivity.
Qed.

(** The loop with the answers of all its documents: it ends, with every
    document settled in turn and the effects of the documents one after the
    other. *)
Lemma loop_trace (docs : list (Item * (option jsstring * Reply))) :
  forall its,
    runAlone (forOf (map fst docs) analyzeItem)
             (flat_map (fun d => docAnswers (snd d)) docs) its
    = (Finished,
       fold_left (fun st d => map (settleItem (fst d) (snd d)) st) docs its,
       flat_map (fun d => docEffects (fst d) (snd d)) docs).
Proof.
  induction docs as [|[item o] docs IH]; intros its.
  - reflexivity.
  - cbn [map forOf flat_map fst snd fold_left].
    rewrite (document_trace item (fun _ => forOf (map fst docs) analyzeItem) o),
      (IH (map (settleItem item o) its)).
    reflexivity.
Qed.

(** When the only thing that happens is that computation [n] gets its
    answers, the session does what the computation does on its own: same
    parking, same store, same effects in the log. *)
Lemma deliveries_settle (answers : list Answer) :
  forall (w : World num) (n : nat) (s : Suspended num),
    nth_error (flows w) n = Some s ->
    let w' := fold_left step (map (Deliver n) answers) w in
    let r := settle s answers (sessionItems (store w)) in
    nth_error (flows w') n = Some (fst (fst r)) /\
    sessionItems (store w') = snd (fst r) /\
    log w' = log w ++ map (ByFlow n) (snd r).
Proof.
  induction answers as [|a answers IH]; intros w n s Hn; cbv zeta.
  - cbn. rewrite app_nil_r. auto.
  - cbn [map fold_left settle].
    change (step w (Deliver n a)) with (deliver n a w).
    unfold deliver. rewrite Hn.
    destruct (resume s a) as [p|].
    + destruct (advance p (sessionItems (store w))) as [[s1 its1] effs1] eqn:Ea.
      set (w1 := {| store := {| sessionItems := its1;
                                activeItemId := activeItemId (store w) |};
                    flows := setNth n s1 (flows w);
                    log := log w ++ map (ByFlow n) effs1 |}).
      assert (Hn1 : nth_error (flows w1) n = Some s1)
        by (apply (nth_error_setNth_same _ _ _ _ Hn)).
      destruct (IH w1 n s1 Hn1) as [Hf [Hs Hl]].
      cbn [store sessionItems log w1] in Hs, Hl, Hf.
      destruct (settle s1 answers its1) as [[s2 its2] effs2].
      cbn [fst snd] in *. rewrite Hf, Hs, Hl, map_app, app_assoc. auto.
    + apply (IH w n s Hn).
Qed.

Lemma deliveries_run_alone (p : Async num unit) (answers : list Answer)
      (w : World num) :
  let n := length (flows w) in
  let w' := fold_left step (map (Deliver n) answers) (spawn p w) in
  let r := runAlone p answers (sessionItems (store w)) in
  nth_error (flows w') n = Some (fst (fst r)) /\
  sessionItems (store w') = snd (fst r) /\
  log w' = log w ++ map (ByFlow n) (snd r).
Proof.
  intros n w' r. unfold w', r, runAlone, spawn.
  destruct (advance p (sessionItems (store w))) as [[s0 its0] effs0].
  set (w0 := {| store := {| sessionItems := its0;
                            activeItemId := activeItemId (store w) |};
                flows := flows w ++ [s0];
                log := log w ++ map (ByFlow (length (flows w))) effs0 |}).
  assert (Hn : nth_error (flows w0) n = Some s0).
  { cbn [flows w0]. rewrite nth_error_app2 by (unfold n; lia).
    unfold n. rewrite Nat.sub_diag. reflexivity. }
  destruct (deliveries_settle answers w0 n s0 Hn) as [Hf [Hs Hl]].
  cbn [store sessionItems log w0] in Hs, Hl, Hf.
  destruct (settle s0 answers its0) as [[s2 its2] effs2].
  cbn [fst snd] in *. fold n in Hl. rewrite Hf, Hs, Hl, map_app, app_assoc. auto.
Qed.

Lemma settle_store_independent (answers : list Answer) :
  forall (s : Suspended num) (its1 its2 : list Item),
    fst (fst (settle s answers its1)) = fst (fst (settle s answers its2)) /\
    snd (settle s answers its1) = snd (settle s answers its2).
Proof.
  induction answers as [|a answers IH]; intros s its1 its2.
  - split; reflexivity.
  - cbn [settle]. destruct (resume s a) as [p|]; [|apply IH].
    destruct (advance_store_independent p its1 its2) as [E1 E2].
    destruct (advance p its1) as [[s1 its1'] effs1].
    destruct (advance p its2) as [[s2 its2'] effs2].
    cbn [fst snd] in E1, E2. subst s2 effs2.
    destruct (IH s1 its1' its2') as [E3 E4].
    destruct (settle s1 answers its1') as [[s3 its3] effs3].
    destruct (settle s1 answers its2') as [[s4 its4] effs4].
    cbn [fst snd] in *. subst. split; reflexivity.
Qed.

Lemma runAlone_effects_independent (p : Async num unit) (answers : list Answer)
      (its1 its2 : list Item) :
  snd (runAlone p answers its1) = snd (runAlone p answers its2).
Proof.
  rewrite !runAlone_effects.
  destruct (advance_store_independent p its1 its2) as [Es Ee].
  rewrite Es, Ee. f_equal. apply (settle_store_independent answers).
Qed.

(** While every other computation is over and no analysis is started, an
    action adds to the log nothing that another computation did. *)
Lemma quiet_step (n : nat) (w : World num) (a : Action num) :
  length (flows w) = S n ->
  (forall m, m < n -> nth_error (flows w) m = Some Finished) ->
  startsNoAnalysis [a] = true ->
  length (flows (step w a)) = S n /\
  (forall m, m < n -> nth_error (flows (step w a)) m = Some Finished) /\
  exists added, log (step w a) = log w ++ added /\ Forall (notOfAnother n) added.
Proof.
  intros Hlen Hfin Hquiet.
  assert (Hstay : length (flows w) = S n /\
                  (forall m, m < n -> nth_error (flows w) m = Some Finished) /\
                  exists added, log w = log w ++ added /\
                                Forall (notOfAnother n) added).
  { split; [exact Hlen|]. split; [exact Hfin|].
    exists []. rewrite app_nil_r. split; [reflexivity | constructor]. }
  unfold step. destruct (enabled w a); [|exact Hstay].
  destruct a as [files | wanted | | | wanted | newData | isoNow | m ans];
    cbn [fire]; try exact Hstay; try discriminate Hquiet.
  - destruct (handleRemoveItem wanted (store w)) as [s' revoked].
    cbn [flows log]. split; [exact Hlen|]. split; [exact Hfin|].
    eexists. split; [reflexivity|].
    apply Forall_map, Forall_forall. intros url _. exact I.
  - destruct (handleExportCSV isoNow (store w)) as [d|]; [|exact Hstay].
    cbn [flows log]. split; [exact Hlen|]. split; [exact Hfin|].
    eexists. split; [reflexivity|]. repeat constructor.
  - unfold deliver. destruct (nth_error (flows w) m) as [s|] eqn:Hm;
      [|exact Hstay].
    destruct (resume s ans) as [p|] eqn:Hres; [|exact Hstay].
    assert (Hmn : m = n).
    { assert (Hlt : m < S n)
        by (rewrite <- Hlen; apply nth_error_Some; rewrite Hm; discriminate).
      destruct (Nat.eq_dec m n) as [E|E]; [exact E|].
      assert (Hm' : m < n) by lia. rewrite (Hfin m Hm') in Hm.
      injection Hm as <-. destruct ans; discriminate. }
    subst m.
    destruct (advance p (sessionItems (store w))) as [[s' its] effs].
    cbn [flows log]. split; [rewrite setNth_length; exact Hlen|]. split.
    + intros m Hlt. rewrite nth_error_setNth_other by lia. apply Hfin, Hlt.
    + eexists. split; [reflexivity|].
      apply Forall_map, Forall_forall. intros e _. reflexivity.
Qed.

Lemma quiet_session (n : nat) (later : list (Action num)) :
  forall w : World num,
    length (flows w) = S n ->
    (forall m, m < n -> nth_error (flows w) m = Some Finished) ->
    startsNoAnalysis later = true ->
    exists added,
      log (fold_left step later w) = log w ++ added /\
      Forall (notOfAnother n) added.
Proof.
  induction later as [|a later IH]; intros w Hlen Hfin Hquiet.
  - exists []. cbn. rewrite app_nil_r. split; [reflexivity | constructor].
  - cbn [startsNoAnalysis forallb] in Hquiet. apply andb_true_iff in Hquiet.
    destruct Hquiet as [Ha Hlater]. cbn [fold_left].
    destruct (quiet_step n w a Hlen Hfin) as [Hlen1 [Hfin1 [added1 [Hlog1 Hown1]]]].
    { cbn [startsNoAnalysis forallb]. rewrite Ha. reflexivity. }
    destruct (IH (step w a) Hlen1 Hfin1 Hlater) as [added2 [Hlog2 Hown2]].
    exists (added1 ++ added2). rewrite Hlog2, Hlog1, app_assoc.
    split; [reflexivity|]. apply Forall_app. split; assumption.
Qed.

(** C3. A batch started in any state of a session selects exactly the
    documents whose status is [IDLE] or [ERROR] at that moment, in list
    order, and processes them one at a time.

    - Whatever else happens in the session afterwards, the effects of the
      batch in the log are those of its loop on the answers it is given; the
      documents it has started are the first of the selection, in order; and
      whenever it issues a request, it is for the last document it started
      and the final update of every selected document before that one is
      already in the log.  If no other extraction is in flight when the
      batch starts and no other analysis is started after it, no effect of
      any other computation is logged at all, so that these requests are the
      only ones.
    - A logged update is an update of the store: every delivery of an answer
      changes the store by exactly the updates it logs, in their order, and
      a final update leaves the documents with its target id in status
      [ERROR], or in status [SUCCESS] with the extracted data.
    - When the answers for all selected documents arrive and nothing else
      happens, the batch ends; the log then holds, document after document
      in the order of the selection, the update that marks it, the read of
      its file, its request if the file was read, and its final update, the
      request of a document coming after the final update of the one before
      it; and the store is the one at the start with every selected
      document settled in turn by its own outcome. *)
Theorem batch_extraction_is_one_at_a_time
        (w : World num) (later : list (Action num))
        (outcomeOf : Item -> option jsstring * Reply) :
  let pending := filter isPending (sessionItems (store w)) in
  let n := length (flows w) in
  (forall i, In i pending <->
             In i (sessionItems (store w)) /\ (status i = IDLE \/ status i = ERROR)) /\
  (exists added,
     log (fold_left step later (fire AnalyzeAll w)) = log w ++ added /\
     (forall its,
        flowEffects n added
        = snd (runAlone (handleAnalyzeAll (sessionItems (store w)))
                        (answersTo n later) its)) /\
     (exists k, k <= length pending /\
                startTargets (flowEffects n added) = map id (firstn k pending)) /\
     OneAtATime pending (flowEffects n added) /\
     (allFinished (flows w) = true -> startsNoAnalysis later = true ->
      Forall (notOfAnother n) added)) /\
  (forall (w' : World num) (m : nat) (ans : Answer),
     exists effs,
       log (step w' (Deliver m ans)) = log w' ++ map (ByFlow m) effs /\
       sessionItems (store (step w' (Deliver m ans)))
       = fold_left (fun st u => applyUpdate u st) (updatesIn effs)
                   (sessionItems (store w'))) /\
  (forall (target : jsstring) (its : list Item) (k : nat) (before : Item),
     nth_error its k = Some before ->
     id before = target ->
     (exists after,
        nth_error (applyUpdate (MarkError target) its) k = Some after /\
        status after = ERROR) /\
     (forall parsed, exists after,
        nth_error (applyUpdate (MarkSuccess target parsed) its) k = Some after /\
        status after = SUCCESS /\ result after = Some parsed)) /\
  (let docs := map (fun i => (i, outcomeOf i)) pending in
   let done := fold_left step
                 (map (Deliver n) (flat_map (fun d => docAnswers (snd d)) docs))
                 (fire AnalyzeAll w) in
   nth_error (flows done) n = Some Finished /\
   log done
   = log w ++ map (ByFlow n) (flat_map (fun d => docEffects (fst d) (snd d)) docs) /\
   sessionItems (store done)
   = fold_left (fun st d => map (settleItem (fst d) (snd d)) st) docs
               (sessionItems (store w))) /\
  (forall dataUrl reply its,
     let run := runAlone (handleAnalyzeAll (sessionItems (store w)))
                         (steadyAnswers dataUrl reply pending) its in
     fst (fst run) = Finished /\
     startTargets (snd run) = map id pending /\
     finalTargets (snd run) = map id pending).
Proof.
  intros pending n. split; [|split; [|split; [|split; [|split]]]].
  - intros i. unfold pending. rewrite filter_In. unfold isPending.
    destruct (status i); cbn; intuition (discriminate || auto).
  - cbn [fire]. unfold handleAnalyzeAll. fold pending.
    destruct (spawned_in_session (forOf pending analyzeItem) w later [])
      as [added [Hlog Heff]].
    fold n in Heff. exists added. split; [exact Hlog|].
    pose proof (loop_Sequential pending (answersTo n later) []) as Hseq.
    rewrite <- Heff in Hseq. split; [|split; [|split]].
    + intros its. rewrite Heff. apply runAlone_effects_independent.
    + destruct (Sequential_starts _ _ _ Hseq) as [k [Hk Hs]].
      rewrite length_map in Hk. exists k. split; [exact Hk|].
      rewrite Hs. apply firstn_map.
    + intros l1 r l2 Hsplit.
      destruct (Sequential_requests (map id pending) _ [] [] (map id pending) None
                  Hseq eq_refl eq_refl l1 r l2 Hsplit) as [j [Hj [Hs Hf]]].
      rewrite length_map in Hj. cbn [app] in Hs, Hf.
      exists j. rewrite Hs, Hf, !firstn_map. auto.
    + intros Hfin Hquiet.
      assert (Hlen : length (flows (spawn (forOf pending analyzeItem) w)) = S n).
      { unfold spawn.
        destruct (advance (forOf pending analyzeItem) (sessionItems (store w)))
          as [[s0 its0] effs0].
        cbn [flows]. rewrite length_app. cbn [length]. fold n. lia. }
      assert (Hbefore : forall m, m < n ->
                nth_error (flows (spawn (forOf pending analyzeItem) w)) m
                = Some Finished).
      { intros m Hm. unfold spawn.
        destruct (advance (forOf pending analyzeItem) (sessionItems (store w)))
          as [[s0 its0] effs0].
        cbn [flows]. rewrite nth_error_app1 by exact Hm.
        destruct (nth_error (flows w) m) as [s|] eqn:Em;
          [|apply nth_error_None in Em; fold n in Em; lia].
        unfold allFinished in Hfin. rewrite forallb_forall in Hfin.
        specialize (Hfin s (nth_error_In _ _ Em)).
        destruct s; try discriminate. reflexivity. }
      destruct (quiet_session n later _ Hlen Hbefore Hquiet)
        as [added2 [Hlog2 Hown2]].
      assert (Hspawn : exists effs0,
                 log (spawn (forOf pending analyzeItem) w)
                 = log w ++ map (ByFlow n) effs0).
      { unfold spawn.
        destruct (advance (forOf pending analyzeItem) (sessionItems (store w)))
          as [[s0 its0] effs0].
        exists effs0. reflexivity. }
      destruct Hspawn as [effs0 Hspawn].
      rewrite Hlog2, Hspawn, <- app_assoc in Hlog.
      apply app_inv_head in Hlog. rewrite <- Hlog.
      apply Forall_app. split; [|exact Hown2].
      apply Forall_map, Forall_forall. intros e _. reflexivity.
  - intros w' m ans. apply deliver_replay.
  - intros target its k before Hk Hid.
    apply (final_update_on_item target its k before Hk Hid).
  - cbn [fire]. unfold handleAnalyzeAll. fold pending. cbv zeta.
    set (docs := map (fun i => (i, outcomeOf i)) pending).
    assert (Hdocs : map fst docs = pending).
    { unfold docs. rewrite map_map. cbn [fst]. apply map_id. }
    pose proof (loop_trace docs (sessionItems (store w))) as Hrun.
    rewrite Hdocs in Hrun.
    destruct (deliveries_run_alone (forOf pending analyzeItem)
                (flat_map (fun d => docAnswers (snd d)) docs) w)
      as [Hf [Hs Hl]].
    fold n in Hf, Hs, Hl. rewrite Hrun in Hf, Hs, Hl.
    cbn [fst snd] in Hf, Hs, Hl. auto.
  - intros dataUrl reply its. unfold handleAnalyzeAll. fold pending.
    apply loop_completes.
Qed.

End Properties.

(* ================================================================== *)
(** * The properties at concrete inputs *)
(* ================================================================== *)


(** C4, on the code.  After [overlappingSession] the second document has
    status [SUCCESS]; the answer to the request of the first document then
    lets the first batch go on to the second document, which it had selected
    when that document was still waiting, and sets it back to [ANALYZING];
    a failure of this second extraction leaves it in [ERROR].  No document
    is removed, and every action is one the interface offers when taken. *)
Theorem stale_batch_leaves_success :
  let before := session overlappingSession in
  let answer := Deliver 0 (Answered (Resolved (Some widgetJson))) in
  let after := step before answer in
  let failed := fold_left step [ Deliver 0 (FileRead (Some pngDataUrl));
                                 Deliver 0 (Answered Rejected) ] after in
  allEnabled initialWorld (overlappingSession ++ [answer]) = true /\
  statuses before = [ (str "id-a", ANALYZING); (str "id-b", SUCCESS) ] /\
  statuses after = [ (str "id-a", SUCCESS); (str "id-b", ANALYZING) ] /\
  statuses failed = [ (str "id-a", SUCCESS); (str "id-b", ERROR) ].
Proof.
  cbv zeta. repeat split; vm_compute; reflexivity.
Qed.

Lemma failed_extraction_marks_error_only_witness :
  let outcome := runAlone (analyzeItem documentA)
                          [FileRead (Some pngDataUrl); Answered Rejected]
                          [documentA; documentB] in
  fst (fst outcome) = Finished /\
  forall (n : nat) (before : InvoiceSessionItem Z),
    nth_error [documentA; documentB] n = Some before ->
    exists after : InvoiceSessionItem Z,
      nth_error (snd (fst outcome)) n = Some after /\
      (id before <> id documentA -> after = before) /\
      (id before = id documentA ->
         status after = ERROR /\
         (exists message, error after = Some message /\ message <> []) /\
         id after = id before /\ file after = file before /\
         previewUrl after = previewUrl before /\
         result after = result before).
Proof.
  apply (failed_extraction_marks_error_only documentA (Some pngDataUrl) Rejected
           [documentA; documentB]).
  reflexivity.
Defined.

Lemma completion_for_removed_item_is_noop_witness :
  (forall extracted,
     applyUpdate (MarkSuccess (id documentA) extracted) [documentB] = [documentB]) /\
  applyUpdate (MarkError (id documentA)) [documentB] = [documentB] /\
  snd (fst (settle (fst (fst (advance (analyzeItem documentA)
                                      [documentA; documentB])))
                   [FileRead (Some pngDataUrl); Answered (Resolved (Some widgetJson))]
                   [documentB]))
  = [documentB].
Proof.
  apply (completion_for_removed_item_is_noop documentA [documentA; documentB]
           [documentB]
           [FileRead (Some pngDataUrl); Answered (Resolved (Some widgetJson))]).
  reflexivity.
Defined.

Lemma export_without_success_is_noop_witness :
  let w := session [FilesSelect [firstUpload; secondUpload]] in
  handleExportCSV (str "2024-01-15T09:00:00.000Z") (store w) = None /\
  fire (ExportCSV (str "2024-01-15T09:00:00.000Z")) w = w /\
  step w (ExportCSV (str "2024-01-15T09:00:00.000Z")) = w.
Proof.
  apply (export_without_success_is_noop (str "2024-01-15T09:00:00.000Z")
           (session [FilesSelect [firstUpload; secondUpload]])).
  simpl. intros i [<- | [<- | []]] [Hs _]; discriminate.
Defined.

Lemma remove_deletes_releases_and_reselects_witness :
  handleRemoveItem (id documentB)
    {| sessionItems := [documentA] ++ documentB :: [];
       activeItemId := Some (str "id-b") |}
  = ({| sessionItems := [documentA]; activeItemId := Some (str "id-a") |},
     [str "blob:b"]).
Proof.
  apply (remove_deletes_releases_and_reselects [documentA] [] documentB
           (Some (str "id-b"))).
  simpl. intros i [<- | []]. vm_compute. discriminate.
Defined.

Lemma headerless_input_is_sent_whole_witness :
  inlineData (@buildRequest (str "iVBORw0KGgo="))
  = {| mimeType := str "image/jpeg"; data := str "iVBORw0KGgo=" |} /\
  exists k, analyzeInvoiceImage (num := Z) (str "iVBORw0KGgo=")
            = AwaitGenerate (buildRequest (str "iVBORw0KGgo=")) k.
Proof.
  apply (headerless_input_is_sent_whole (num := Z) (str "iVBORw0KGgo=")).
  intros declared payload. vm_compute. discriminate.
Defined.

Lemma data_url_is_split_at_its_header_witness :
  inlineData (buildRequest (str "data:" ++ str "image/png" ++ str ";base64,"
                              ++ str "iVBORw0KGgo="))
  = {| mimeType := str "image/png"; data := str "iVBORw0KGgo=" |}.
Proof.
  apply (data_url_is_split_at_its_header (str "image/png") (str "iVBORw0KGgo="));
    reflexivity.
Defined.

Lemma line_break_in_type_disables_the_header_witness :
  inlineData (buildRequest (str "data:" ++ str "image/png"
                              ++ NEWLINE :: str ";base64,iVBORw0KGgo="))
  = {| mimeType := str "image/jpeg";
       data := str "data:" ++ str "image/png"
                 ++ NEWLINE :: str ";base64,iVBORw0KGgo=" |}.
Proof.
  apply (line_break_in_type_disables_the_header (str "image/png")
           (str ";base64,iVBORw0KGgo=") NEWLINE); reflexivity.
Defined.

Lemma items_cell_holds_no_double_quote_witness :
  quoteFree (itemsSummary quotedInvoice) = true.
Proof.
  apply (items_cell_holds_no_double_quote quotedInvoice). reflexivity.
Defined.

Lemma escaped_file_names_are_distinct_witness :
  name (file quotedItem) = str "scan" ++ [QUOTE] ++ str "1.png".
Proof.
  apply (escaped_file_names_are_distinct (name (file quotedItem))
           (str "scan" ++ [QUOTE] ++ str "1.png")).
  reflexivity.
Defined.

Lemma zero_total_drops_the_line_from_export_witness :
  exists newData,
    handleItemChange widgetInvoice 0 (ChangeTotal 0%Z) = Some newData /\
    itemsSummary newData
    = join [NEWLINE]
        (map lineItemSummary
             (filter (fun l => negb (isZero (total l)))
                     (removeNth 0 (items widgetInvoice)))).
Proof.
  apply (zero_total_drops_the_line_from_export widgetInvoice 0 0%Z widget);
    reflexivity.
Defined.

Lemma upload_selects_first_new_document_witness :
  activeItem (handleFilesSelect (secondUpload :: [])
                {| sessionItems := [documentA];
                   activeItemId := Some (str "id-a") |})
  = Some {| id := randomUUID secondUpload; file := picked secondUpload;
            previewUrl := objectURL secondUpload; status := IDLE;
            result := None; error := None |}.
Proof.
  apply (upload_selects_first_new_document secondUpload []
           {| sessionItems := [documentA]; activeItemId := Some (str "id-a") |}).
  reflexivity.
Defined.

Lemma ids_stay_unique_witness :
  NoDup (map id (sessionItems (store (session overlappingSession)))).
Proof.
  apply (ids_stay_unique overlappingSession). vm_compute. reflexivity.
Defined.

Lemma successful_extraction_stores_the_data_witness :
  let outcome := runAlone (analyzeItem documentB)
                          [FileRead (Some pngDataUrl);
                           Answered (Resolved (Some widgetJson))]
                          [documentA; documentB] in
  fst (fst outcome) = Finished /\
  snd outcome = [ DidSetItems (MarkAnalyzing (id documentB));
                  DidReadFile (file documentB);
                  DidRequest (buildRequest pngDataUrl);
                  DidSetItems (MarkSuccess (id documentB) widgetInvoice) ] /\
  forall (n : nat) (before : InvoiceSessionItem Z),
    nth_error [documentA; documentB] n = Some before ->
    exists after : InvoiceSessionItem Z,
      nth_error (snd (fst outcome)) n = Some after /\
      (id before <> id documentB -> after = before) /\
      (id before = id documentB ->
         status after = SUCCESS /\ result after = Some widgetInvoice /\
         error after = None /\ identity after = identity before).
Proof.
  apply (successful_extraction_stores_the_data documentB pngDataUrl widgetJson
           widgetInvoice [documentA; documentB]); reflexivity.
Defined.

Lemma batch_settles_each_document_by_its_own_outcome_witness :
  let run := runAlone (handleAnalyzeAll [documentA; documentB])
                      (flat_map (fun d => docAnswers (snd d)) answeredB)
                      [documentA; documentB] in
  fst (fst run) = Finished /\
  forall (n : nat) (before : InvoiceSessionItem Z),
    nth_error [documentA; documentB] n = Some before ->
    exists after : InvoiceSessionItem Z,
      nth_error (snd (fst run)) n = Some after /\
      identity after = identity before /\
      (isPending before = false -> after = before) /\
      (forall o, In (before, o) answeredB ->
         match extractedFrom o with
         | Some parsed =>
             status after = SUCCESS /\ result after = Some parsed /\
             error after = None
         | None =>
             status after = ERROR /\ result after = result before /\
             error after = Some FAILURE_MESSAGE
         end).
Proof.
  apply (batch_settles_each_document_by_its_own_outcome
           [documentA; documentB] answeredB).
  - apply distinct_NoDup. reflexivity.
  - reflexivity.
Defined.

Lemma header_ends_at_the_first_marker_witness :
  length (mimeType (inlineData (buildRequest pngDataUrl)))
  <= length (str "image/png") /\
  pngDataUrl = str "data:" ++ mimeType (inlineData (buildRequest pngDataUrl))
                 ++ str ";base64," ++ data (inlineData (buildRequest pngDataUrl)).
Proof.
  apply (header_ends_at_the_first_marker pngDataUrl (str "image/png")
           (str "iVBORw0KGgo=")); reflexivity.
Defined.

Lemma typed_invoice_number_reaches_the_export_witness :
  exists edited,
    nth_error (sessionItems (editInput (ChangeInvoiceNumber (str "INV-9"))
                                       twoDocuments)) 0
    = Some edited /\
    status edited = status documentA /\
    nth_error (rowOf edited) 2 = Some (quoted (str "INV-9")).
Proof.
  apply (typed_invoice_number_reaches_the_export twoDocuments 0 documentA
           widgetInvoice (str "INV-9")); reflexivity.
Defined.

Lemma batch_extraction_is_one_at_a_time_witness :
  let w := session [FilesSelect [firstUpload; secondUpload]] in
  let later := [ Deliver 0 (FileRead (Some pngDataUrl));
                 Deliver 0 (Answered (Resolved (Some widgetJson)));
                 Deliver 0 (FileRead (Some pngDataUrl));
                 Deliver 0 (Answered Rejected) ] in
  allFinished (flows w) = true /\
  startsNoAnalysis later = true /\
  exists added,
    log (fold_left step later (fire AnalyzeAll w)) = log w ++ added /\
    Forall (notOfAnother 0) added /\
    requestsIn (flowEffects 0 added) = 2 /\
    finalTargets (flowEffects 0 added) = [str "id-a"; str "id-b"].
Proof.
  intros w later. split; [reflexivity|]. split; [reflexivity|].
  destruct (batch_extraction_is_one_at_a_time w later (fun _ => (None, Rejected)))
    as [_ [[added [Hlog [_ [_ [_ Hquiet]]]]] _]].
  exists added. split; [exact Hlog|]. split; [apply Hquiet; reflexivity|].
  vm_compute in Hlog. rewrite <- Hlog. split; vm_compute; reflexivity.
Defined.
